(** * The indexer start command (cmd/start.go) and the fetcher contracts
      (fetch/types.go)

    The start command wires the indexer together: it parses the log level,
    builds a logger, opens the storage DB, constructs one event manager, the
    fetcher and the JSON-RPC service, registers both services with a waiter
    and waits for them.  Everything it talks to (zap, storage, client,
    events, fetch, serve, the waiter) lives outside the two files, so the
    command is embedded as a program over external calls: a run is driven by
    an environment that answers every call, and the calls performed are
    recorded, in order, in a trace.  Every external call returns: a run is
    a run of [exec] up to its return, and the trace holds all of it. *)

From Stdlib Require Import Ascii String List ZArith Bool Lia.
Import ListNotations.
Local Open Scope string_scope.
Local Open Scope list_scope.

Set Implicit Arguments.
Set Warnings "-register-all".

(** ** Go errors

    A Go [error] value that may be nil is an [option error].  The three
    shapes the command itself can observe or build: an error of a library
    (only its message matters), the wrapper built by [fmt.Errorf] with the
    verb [%w], and the value built by [errors.Join]. *)
Module errors.

Inductive error : Type :=
| errorString (s : string)
| wrapError (msg : string) (err : error)
| joinError (errs : list error).

(** The [Error()] method. *)
Fixpoint Error (e : error) : string :=
  match e with
  | errorString s => s
  | wrapError msg _ => msg
  | joinError errs =>
      (fix lines (l : list error) : string :=
         match l with
         | [] => ""
         | x :: r =>
             match r with
             | [] => Error x
             | _ :: _ =>
                 (Error x ++ String (Ascii.ascii_of_nat 10) (lines r))%string
             end
         end) errs
  end.

(** [errors.Unwrap]. *)
Definition Unwrap (e : error) : option error :=
  match e with
  | wrapError _ err => Some err
  | _ => None
  end.

(** The non-nil values among the arguments of a variadic call. *)
Fixpoint nonnil (errs : list (option error)) : list error :=
  match errs with
  | [] => []
  | None :: r => nonnil r
  | Some e :: r => e :: nonnil r
  end.

(** [errors.Join]: nil when every argument is nil, otherwise an error
    that holds the non-nil arguments in order. *)
Definition Join (errs : list (option error)) : option error :=
  match nonnil errs with
  | [] => None
  | e :: r => Some (joinError (e :: r))
  end.

(** [fmt.Errorf(prefix + "%w", err)] for a non-nil [err]. *)
Definition Errorf_w (prefix : string) (err : error) : error :=
  wrapError (prefix ++ Error err)%string err.

End errors.
Import errors.

(** ** The configuration of the start command *)

Record startCfg : Type := {
  listenAddress : string;
  remote : string;
  dbPath : string;
  logLevel : string;
  maxSlots : Z;
  maxChunkSize : Z
}.

(** ** External objects

    Pointers to objects of the other packages.  Two pointers are the same
    instance exactly when they are equal. *)

Inductive AtomicLevel : Type := AtomicLevelAt (lvl : Z).
Inductive Logger : Type := LoggerPtr (addr : nat).
Inductive Pebble : Type := PebblePtr (addr : nat).
Inductive Manager : Type := ManagerPtr (addr : nat).
Inductive RPCClient : Type := RPCClientPtr (addr : nat).
Inductive Fetcher : Type := FetcherPtr (addr : nat).
Inductive JSONRPC : Type := JSONRPCPtr (addr : nat).
Inductive waiter : Type := waiterPtr (addr : nat).
Inductive Context : Type := ContextPtr (addr : nat).

(** [zap.Config]: the level is the one field the command assigns. *)
Record zap_Config : Type := {
  Level : AtomicLevel;
  Development : bool
}.

Definition set_Level (cfg : zap_Config) (l : AtomicLevel) : zap_Config :=
  {| Level := l; Development := Development cfg |}.

(** [zap.Error(err)], the one log field the command builds. *)
Inductive zap_Field : Type := zap_Error (err : error).

(** Functional options of [fetch.New] and [serve.NewJSONRPC]. *)
Inductive fetch_Option : Type :=
| fetch_WithLogger (l : Logger)
| fetch_WithMaxSlots (maxSlots : Z)
| fetch_WithMaxChunkSize (maxChunkSize : Z).

Inductive serve_Option : Type :=
| serve_WithLogger (l : Logger)
| serve_WithListenAddress (address : string).

(** The method values handed to the waiter. *)
Inductive waitFunc : Type :=
| FetchChainData (f : Fetcher)
| Serve (j : JSONRPC).

(** ** External calls

    One constructor per call the command makes, indexed by what the call
    returns.  A Go result [(T, error)] is [T + error]: the command reads
    the value only when the error is nil.  The first two parameters of
    [fetch.New] have the interface types [Storage] and [Client]; the values
    the command has for them are a [*storage.Pebble] and the client
    returned by [client.NewClient]. *)
Inductive call : Type -> Type :=
| zap_ParseAtomicLevel (text : string) : call (AtomicLevel + error)
| zap_NewDevelopmentConfig : call zap_Config
| Config_Build (cfg : zap_Config) : call (Logger + error)
| Logger_Named (l : Logger) (name : string) : call Logger
| Logger_Error (l : Logger) (msg : string) (fields : list zap_Field) : call unit
| Logger_Sync (l : Logger) : call (option error)
| storage_NewPebble (path : string) : call (Pebble + error)
| Pebble_Close (db : Pebble) : call (option error)
| events_NewManager : call Manager
| client_NewClient (remote : string) : call RPCClient
| fetch_New (storage : Pebble) (client : RPCClient) (events : Manager)
            (opts : list fetch_Option) : call Fetcher
| serve_NewJSONRPC (em : Manager) (opts : list serve_Option) : call JSONRPC
| JSONRPC_RegisterTxEndpoints (j : JSONRPC) (db : Pebble) : call unit
| JSONRPC_RegisterBlockEndpoints (j : JSONRPC) (db : Pebble) : call unit
| JSONRPC_RegisterSubEndpoints (j : JSONRPC) (db : Pebble) : call unit
| newWaiter (ctx : Context) : call waiter
| waiter_add (w : waiter) (fn : waitFunc) : call unit
| waiter_wait (w : waiter) : call (option error).

(** A call together with what it returned. *)
Inductive event : Type :=
| Ev (X : Type) (c : call X) (x : X).

(** ** Programs

    A program returns, performs an external call and continues with its
    result, reads the configuration struct behind the receiver [c], or
    writes it. *)
Inductive prog (R : Type) : Type :=
| Ret (r : R)
| Call (X : Type) (c : call X) (k : X -> prog R)
| Load (k : startCfg -> prog R)
| Modify (f : startCfg -> startCfg) (k : prog R).

Arguments Ret {R} r.
Arguments Call {R X} c k.
Arguments Load {R} k.
Arguments Modify {R} f k.

Fixpoint bind {A B : Type} (m : prog A) (f : A -> prog B) : prog B :=
  match m with
  | Ret a => f a
  | Call c k => Call c (fun x => bind (k x) f)
  | Load k => Load (fun c => bind (k c) f)
  | Modify g k => Modify g (bind k f)
  end.

Definition do {X : Type} (c : call X) : prog X := Call c (fun x => Ret x).
Definition field {A : Type} (f : startCfg -> A) : prog A :=
  Load (fun c => Ret (f c)).
Definition assign (f : startCfg -> startCfg) : prog unit :=
  Modify f (Ret tt).

Declare Scope prog_scope.
Delimit Scope prog_scope with prog.
Notation "x <- m ;; k" := (bind m (fun x => k))
  (at level 61, m at next level, right associativity) : prog_scope.
Notation "m ;; k" := (bind m (fun _ => k))
  (at level 61, right associativity) : prog_scope.
Local Open Scope prog_scope.

(** [defer d] around a body: the deferred call runs once the body has
    produced the return value, and cannot change it (the result of [exec]
    is unnamed). *)
Definition with_defer {A : Type} (d : prog unit) (body : prog A) : prog A :=
  r <- body ;; d ;; Ret r.

(** ** Runs

    The machine state is the configuration struct and the trace of the
    calls made so far.  The environment answers a call knowing the whole
    history, so its answers may depend on anything that happened before. *)
Record state : Type := {
  cfg : startCfg;
  trace : list event
}.

Definition oracle : Type := forall X : Type, list event -> call X -> X.

Definition record_event (e : event) (s : state) : state :=
  {| cfg := cfg s; trace := trace s ++ [e] |}.

Definition write_cfg (f : startCfg -> startCfg) (s : state) : state :=
  {| cfg := f (cfg s); trace := trace s |}.

Fixpoint run {R : Type} (o : oracle) (p : prog R) (s : state) : R * state :=
  match p with
  | Ret r => (r, s)
  | Call c k =>
      let x := o _ (trace s) c in
      run o (k x) (record_event (Ev c x) s)
  | Load k => run o (k (cfg s)) s
  | Modify f k => run o k (write_cfg f s)
  end.

Definition init (c : startCfg) : state := {| cfg := c; trace := [] |}.

(** ** cmd/start.go *)

(** [setupJSONRPC] sets up the JSONRPC instance. *)
Definition setupJSONRPC (listenAddress : string) (db : Pebble) (em : Manager)
    (logger : Logger) : prog JSONRPC :=
  l <- do (Logger_Named logger "json-rpc") ;;
  j <- do (serve_NewJSONRPC em
             [serve_WithLogger l; serve_WithListenAddress listenAddress]) ;;
  do (JSONRPC_RegisterTxEndpoints j db) ;;
  do (JSONRPC_RegisterBlockEndpoints j db) ;;
  do (JSONRPC_RegisterSubEndpoints j db) ;;
  Ret j.

(** The closure deferred by [exec] once the DB is open. *)
Definition close_db (db : Pebble) (logger : Logger) : prog unit :=
  r <- do (Pebble_Close db) ;;
  match r with
  | Some err =>
      do (Logger_Error logger "unable to gracefully close DB" [zap_Error err])
  | None => Ret tt
  end.

(** [exec] executes the indexer start command. *)
Definition exec (ctx : Context) : prog (option error) :=
  text <- field logLevel ;;
  r <- do (zap_ParseAtomicLevel text) ;;
  match r with
  | inr err => Ret (Some (Errorf_w "unable to parse log level, " err))
  | inl lvl =>
    zc <- do zap_NewDevelopmentConfig ;;
    r <- do (Config_Build (set_Level zc lvl)) ;;
    match r with
    | inr err => Ret (Some (Errorf_w "unable to create logger, " err))
    | inl logger =>
      path <- field dbPath ;;
      r <- do (storage_NewPebble path) ;;
      match r with
      | inr err => Ret (Some (Errorf_w "unable to open storage DB, " err))
      | inl db =>
        with_defer (close_db db logger)
          (em <- do events_NewManager ;;
           url <- field remote ;;
           cl <- do (client_NewClient url) ;;
           lf <- do (Logger_Named logger "fetcher") ;;
           slots <- field maxSlots ;;
           chunk <- field maxChunkSize ;;
           f <- do (fetch_New db cl em
                      [fetch_WithLogger lf;
                       fetch_WithMaxSlots slots;
                       fetch_WithMaxChunkSize chunk]) ;;
           addr <- field listenAddress ;;
           j <- setupJSONRPC addr db em logger ;;
           w <- do (newWaiter ctx) ;;
           do (waiter_add w (FetchChainData f)) ;;
           do (waiter_add w (Serve j)) ;;
           werr <- do (waiter_wait w) ;;
           serr <- do (Logger_Sync logger) ;;
           Ret (Join [werr; serr]))
      end
    end
  end.

(** ** Flags

    The part of Go's [flag] package that [registerFlags] uses.  A flag
    holds a pointer to the field of the configuration it sets; the command
    line is taken after tokenisation, as the list of the flags supplied
    with their values. *)
Module flag.

(** Pointers into the configuration struct. *)
Inductive stringRef : Type :=
| ref_listenAddress | ref_remote | ref_dbPath | ref_logLevel.
Inductive intRef : Type := ref_maxSlots.
Inductive int64Ref : Type := ref_maxChunkSize.

Definition store_string (p : stringRef) (v : string) (c : startCfg)
  : startCfg :=
  match p with
  | ref_listenAddress =>
      {| listenAddress := v; remote := remote c; dbPath := dbPath c;
         logLevel := logLevel c; maxSlots := maxSlots c;
         maxChunkSize := maxChunkSize c |}
  | ref_remote =>
      {| listenAddress := listenAddress c; remote := v; dbPath := dbPath c;
         logLevel := logLevel c; maxSlots := maxSlots c;
         maxChunkSize := maxChunkSize c |}
  | ref_dbPath =>
      {| listenAddress := listenAddress c; remote := remote c; dbPath := v;
         logLevel := logLevel c; maxSlots := maxSlots c;
         maxChunkSize := maxChunkSize c |}
  | ref_logLevel =>
      {| listenAddress := listenAddress c; remote := remote c;
         dbPath := dbPath c; logLevel := v; maxSlots := maxSlots c;
         maxChunkSize := maxChunkSize c |}
  end.

Definition store_int (p : intRef) (v : Z) (c : startCfg) : startCfg :=
  match p with
  | ref_maxSlots =>
      {| listenAddress := listenAddress c; remote := remote c;
         dbPath := dbPath c; logLevel := logLevel c; maxSlots := v;
         maxChunkSize := maxChunkSize c |}
  end.

Definition store_int64 (p : int64Ref) (v : Z) (c : startCfg) : startCfg :=
  match p with
  | ref_maxChunkSize =>
      {| listenAddress := listenAddress c; remote := remote c;
         dbPath := dbPath c; logLevel := logLevel c; maxSlots := maxSlots c;
         maxChunkSize := v |}
  end.

Inductive Value : Type :=
| stringValue (p : stringRef)
| intValue (p : intRef)
| int64Value (p : int64Ref).

Record Flag : Type := {
  Name : string;
  Usage : string;
  Val : Value
}.

Inductive ErrorHandling : Type := ContinueOnError | ExitOnError | PanicOnError.

Record FlagSet : Type := {
  name : string;
  errorHandling : ErrorHandling;
  formal : list Flag
}.

Definition NewFlagSet (n : string) (h : ErrorHandling) : FlagSet :=
  {| name := n; errorHandling := h; formal := [] |}.

Definition lookup (fs : FlagSet) (n : string) : option Flag :=
  find (fun f => String.eqb (Name f) n) (formal fs).

Fixpoint contains_char (ch : Ascii.ascii) (s : string) : bool :=
  match s with
  | EmptyString => false
  | String a r => Ascii.eqb a ch || contains_char ch r
  end.

(** [FlagSet.Var]: [None] is the panic on a name that starts with a
    dash, contains an equals sign, or is already defined. *)
Definition Var (fs : FlagSet) (v : Value) (n usage : string)
  : option FlagSet :=
  if String.prefix "-" n then None
  else if contains_char "="%char n then None
  else match lookup fs n with
       | Some _ => None
       | None =>
           Some {| name := name fs; errorHandling := errorHandling fs;
                   formal := formal fs ++
                     [{| Name := n; Usage := usage; Val := v |}] |}
       end.

(** [StringVar], [IntVar], [Int64Var]: the default is written through
    the pointer, then the flag is defined. *)
Definition StringVar (fs : FlagSet) (p : stringRef) (n value usage : string)
  : prog (option FlagSet) :=
  assign (store_string p value) ;; Ret (Var fs (stringValue p) n usage).

Definition IntVar (fs : FlagSet) (p : intRef) (n : string) (value : Z)
    (usage : string) : prog (option FlagSet) :=
  assign (store_int p value) ;; Ret (Var fs (intValue p) n usage).

Definition Int64Var (fs : FlagSet) (p : int64Ref) (n : string) (value : Z)
    (usage : string) : prog (option FlagSet) :=
  assign (store_int64 p value) ;; Ret (Var fs (int64Value p) n usage).

Section Parsing.

(** [strconv.ParseInt s base bitSize] and [strconv.IntSize]. *)
Variable ParseInt : string -> Z -> Z -> Z * option error.
Variable IntSize : Z.

(** The [Set] method of a flag's value. *)
Definition Set_ (v : Value) (s : string) : prog (option error) :=
  match v with
  | stringValue p => assign (store_string p s) ;; Ret None
  | intValue p =>
      let '(n, err) := ParseInt s 0 IntSize in
      assign (store_int p n) ;; Ret err
  | int64Value p =>
      let '(n, err) := ParseInt s 0 64 in
      assign (store_int64 p n) ;; Ret err
  end.

Definition quote (s : string) : string :=
  (String (Ascii.ascii_of_nat 34) s
     ++ String (Ascii.ascii_of_nat 34) "")%string.

(** [FlagSet.Parse] over the supplied flags: each one is looked up
    and set, in order; the first failure ends the parse. *)
Fixpoint Parse (fs : FlagSet) (args : list (string * string))
  : prog (option error) :=
  match args with
  | [] => Ret None
  | (n, v) :: rest =>
      match lookup fs n with
      | None =>
          Ret (Some (errorString
                       ("flag provided but not defined: -" ++ n)%string))
      | Some f =>
          r <- Set_ (Val f) v ;;
          match r with
          | Some err =>
              Ret (Some (errorString
                           ("invalid value " ++ quote v ++ " for flag -"
                              ++ n ++ ": " ++ Error err)%string))
          | None => Parse fs rest
          end
      end
  end.

End Parsing.

End flag.

(** ** What the start command takes from other packages

    [serve.DefaultListenAddress], [zap.InfoLevel.String()],
    [fetch.DefaultMaxSlots] and [fetch.DefaultMaxChunkSize] are declared
    outside the two files, as are [strconv.ParseInt] and
    [strconv.IntSize], which the integer flags parse with. *)
Record Externals : Type := {
  serve_DefaultListenAddress : string;
  zap_InfoLevel_String : string;
  fetch_DefaultMaxSlots : Z;
  fetch_DefaultMaxChunkSize : Z;
  strconv_ParseInt : string -> Z -> Z -> Z * option error;
  strconv_IntSize : Z
}.

Definition defaultRemote : string := "http://127.0.0.1:26657".
Definition defaultDBPath : string := "indexer-db".

(** The zero value [startCfg{}]. *)
Definition zero_startCfg : startCfg :=
  {| listenAddress := ""; remote := ""; dbPath := ""; logLevel := "";
     maxSlots := 0; maxChunkSize := 0 |}.

(** A step that may panic, inside a program. *)
Notation "x <-? m ;; k" :=
  (bind m (fun r => match r with Some x => k | None => Ret None end))
  (at level 61, m at next level, right associativity) : prog_scope.

(** [registerFlags] registers the indexer start command flags. *)
Definition registerFlags (E : Externals) (fs : flag.FlagSet)
  : prog (option flag.FlagSet) :=
  fs <-? flag.StringVar fs flag.ref_listenAddress "listen-address"
           (serve_DefaultListenAddress E)
           "the IP:PORT URL for the indexer JSON-RPC server" ;;
  fs <-? flag.StringVar fs flag.ref_remote "remote" defaultRemote
           "the JSON-RPC URL of the Gno chain" ;;
  fs <-? flag.StringVar fs flag.ref_dbPath "db-path" defaultDBPath
           "the absolute path for the indexer DB (embedded)" ;;
  fs <-? flag.StringVar fs flag.ref_logLevel "log-level"
           (zap_InfoLevel_String E)
           "the log level for the CLI output" ;;
  fs <-? flag.IntVar fs flag.ref_maxSlots "max-slots"
           (fetch_DefaultMaxSlots E)
           "the amount of slots (workers) the fetcher employs" ;;
  fs <-? flag.Int64Var fs flag.ref_maxChunkSize "max-chunk-size"
           (fetch_DefaultMaxChunkSize E)
           "the range for fetching blockchain data by a single worker" ;;
  Ret (Some fs).

(** [ffcli.Command], with the fields [newStartCmd] fills in. *)
Record Command : Type := {
  Name : string;
  ShortUsage : string;
  ShortHelp : string;
  LongHelp : string;
  FlagSet : flag.FlagSet;
  Exec : Context -> list string -> prog (option error)
}.

(** [newStartCmd] creates the indexer start command.  The configuration
    it allocates is the struct of the machine state. *)
Definition newStartCmd (E : Externals) : prog (option Command) :=
  assign (fun _ => zero_startCfg) ;;
  fs <-? registerFlags E (flag.NewFlagSet "start" flag.ExitOnError) ;;
  Ret (Some {|
    Name := "start";
    ShortUsage := "start [flags]";
    ShortHelp := "Starts the indexer service";
    LongHelp :=
      "Starts the indexer service, which includes the fetcher and JSON-RPC server";
    FlagSet := fs;
    Exec := fun ctx _ => exec ctx
  |}).

(** The command is used the way [ffcli] uses it: the flags supplied are
    parsed into the configuration, and [Exec] runs when that succeeded. *)
Definition ParseAndRun (E : Externals) (cmd : Command) (ctx : Context)
    (args : list (string * string)) : prog (option error) :=
  r <- flag.Parse (strconv_ParseInt E) (strconv_IntSize E) (FlagSet cmd) args ;;
  match r with
  | Some err => Ret (Some err)
  | None => Exec cmd ctx []
  end.

(** The whole start command on a command line; [None] is a panic while
    the flags are registered. *)
Definition start (E : Externals) (ctx : Context) (args : list (string * string))
  : prog (option (option error)) :=
  cmd <-? newStartCmd E ;;
  r <- ParseAndRun E cmd ctx args ;;
  Ret (Some r).

(** ** fetch/types.go: the contracts the fetcher consumes

    An interface declaration is its method set: every method with its
    name, parameter types and result types. *)
Module fetch.

Inductive gotype : Type :=
| int64
| error_
| pointer (pkg : string) (type : string).

Record method : Type := {
  mname : string;
  params : list gotype;
  results : list gotype
}.

Definition interface : Type := list method.

(** [Storage] defines the transaction storage interface. *)
Definition Storage : interface :=
  [ {| mname := "GetLatestHeight"; params := [];
       results := [int64; error_] |};
    {| mname := "SaveBlock"; params := [pointer "types" "Block"];
       results := [error_] |};
    {| mname := "SaveTx"; params := [pointer "types" "TxResult"];
       results := [error_] |} ].

(** [Client] defines the interface for the node (client) communication. *)
Definition Client : interface :=
  [ {| mname := "GetLatestBlockNumber"; params := [];
       results := [int64; error_] |};
    {| mname := "GetBlock"; params := [int64];
       results := [pointer "core_types" "ResultBlock"; error_] |};
    {| mname := "GetBlockResults"; params := [int64];
       results := [pointer "core_types" "ResultBlockResults"; error_] |} ].

(** The signature an interface gives a method name, if it has it. *)
Definition signature (i : interface) (n : string)
  : option (list gotype * list gotype) :=
  match find (fun m => String.eqb (mname m) n) i with
  | Some m => Some (params m, results m)
  | None => None
  end.

End fetch.

(** ** Reading a trace *)

(** The observations [f] makes of the events of a trace, in order. *)
Definition observe {A : Type} (f : forall X, call X -> X -> option A)
    (tr : list event) : list A :=
  flat_map (fun e => match e with
                     | Ev c x => match f _ c x with
                                 | Some a => [a]
                                 | None => []
                                 end
                     end) tr.

(** The managers constructed by [events.NewManager]. *)
Definition constructed_managers : list event -> list Manager :=
  observe (fun X (c : call X) =>
    match c in call T return T -> option Manager with
    | events_NewManager => fun m => Some m
    | _ => fun _ => None
    end).

(** The managers handed to the fetcher and to the JSON-RPC service. *)
Definition fetcher_managers : list event -> list Manager :=
  observe (fun X (c : call X) =>
    match c in call T return T -> option Manager with
    | fetch_New _ _ em _ => fun _ => Some em
    | _ => fun _ => None
    end).

Definition jsonrpc_managers : list event -> list Manager :=
  observe (fun X (c : call X) =>
    match c in call T return T -> option Manager with
    | serve_NewJSONRPC em _ => fun _ => Some em
    | _ => fun _ => None
    end).

(** The DBs opened, with their paths, and the clients built, with their
    endpoints. *)
Definition opened_dbs : list event -> list (string * Pebble) :=
  observe (fun X (c : call X) =>
    match c in call T return T -> option (string * Pebble) with
    | storage_NewPebble path =>
        fun r => match r with inl db => Some (path, db) | inr _ => None end
    | _ => fun _ => None
    end).

Definition built_clients : list event -> list (string * RPCClient) :=
  observe (fun X (c : call X) =>
    match c in call T return T -> option (string * RPCClient) with
    | client_NewClient url => fun cl => Some (url, cl)
    | _ => fun _ => None
    end).

(** The storage, the client and the options of every [fetch.New]. *)
Definition fetcher_storages : list event -> list Pebble :=
  observe (fun X (c : call X) =>
    match c in call T return T -> option Pebble with
    | fetch_New db _ _ _ => fun _ => Some db
    | _ => fun _ => None
    end).

Definition fetcher_clients : list event -> list RPCClient :=
  observe (fun X (c : call X) =>
    match c in call T return T -> option RPCClient with
    | fetch_New _ cl _ _ => fun _ => Some cl
    | _ => fun _ => None
    end).

Definition fetcher_options : list event -> list (list fetch_Option) :=
  observe (fun X (c : call X) =>
    match c in call T return T -> option (list fetch_Option) with
    | fetch_New _ _ _ opts => fun _ => Some opts
    | _ => fun _ => None
    end).

(** The worker counts and the chunk sizes among options. *)
Fixpoint slots_of (opts : list fetch_Option) : list Z :=
  match opts with
  | [] => []
  | fetch_WithMaxSlots n :: r => n :: slots_of r
  | _ :: r => slots_of r
  end.

Fixpoint chunk_sizes_of (opts : list fetch_Option) : list Z :=
  match opts with
  | [] => []
  | fetch_WithMaxChunkSize n :: r => n :: chunk_sizes_of r
  | _ :: r => chunk_sizes_of r
  end.

(** The waiters created, the services added to a waiter, the waits. *)
Definition created_waiters : list event -> list waiter :=
  observe (fun X (c : call X) =>
    match c in call T return T -> option waiter with
    | newWaiter _ => fun w => Some w
    | _ => fun _ => None
    end).

Definition added_services : list event -> list (waiter * waitFunc) :=
  observe (fun X (c : call X) =>
    match c in call T return T -> option (waiter * waitFunc) with
    | waiter_add w fn => fun _ => Some (w, fn)
    | _ => fun _ => None
    end).

Definition waits : list event -> list (waiter * option error) :=
  observe (fun X (c : call X) =>
    match c in call T return T -> option (waiter * option error) with
    | waiter_wait w => fun r => Some (w, r)
    | _ => fun _ => None
    end).

(** The DBs closed, and the JSON-RPC services constructed. *)
Definition closed_dbs : list event -> list Pebble :=
  observe (fun X (c : call X) =>
    match c in call T return T -> option Pebble with
    | Pebble_Close db => fun _ => Some db
    | _ => fun _ => None
    end).

Definition constructed_jsonrpcs : list event -> list JSONRPC :=
  observe (fun X (c : call X) =>
    match c in call T return T -> option JSONRPC with
    | serve_NewJSONRPC _ _ => fun j => Some j
    | _ => fun _ => None
    end).

Definition constructed_fetchers : list event -> list Fetcher :=
  observe (fun X (c : call X) =>
    match c in call T return T -> option Fetcher with
    | fetch_New _ _ _ _ => fun f => Some f
    | _ => fun _ => None
    end).

(** The endpoint groups registered: on which instance, backed by which
    DB. *)
Inductive endpoints : Type := TxEndpoints | BlockEndpoints | SubEndpoints.

Definition registered_endpoints
  : list event -> list (endpoints * JSONRPC * Pebble) :=
  observe (fun X (c : call X) =>
    match c in call T return T -> option (endpoints * JSONRPC * Pebble) with
    | JSONRPC_RegisterTxEndpoints j db => fun _ => Some (TxEndpoints, j, db)
    | JSONRPC_RegisterBlockEndpoints j db =>
        fun _ => Some (BlockEndpoints, j, db)
    | JSONRPC_RegisterSubEndpoints j db => fun _ => Some (SubEndpoints, j, db)
    | _ => fun _ => None
    end).

(** The options of every [serve.NewJSONRPC]. *)
Definition jsonrpc_options : list event -> list (list serve_Option) :=
  observe (fun X (c : call X) =>
    match c in call T return T -> option (list serve_Option) with
    | serve_NewJSONRPC _ opts => fun _ => Some opts
    | _ => fun _ => None
    end).

(** The texts given to [zap.ParseAtomicLevel], the paths given to
    [storage.NewPebble] and the endpoints given to [client.NewClient]. *)
Definition parsed_levels : list event -> list string :=
  observe (fun X (c : call X) =>
    match c in call T return T -> option string with
    | zap_ParseAtomicLevel text => fun _ => Some text
    | _ => fun _ => None
    end).

Definition storage_paths : list event -> list string :=
  observe (fun X (c : call X) =>
    match c in call T return T -> option string with
    | storage_NewPebble path => fun _ => Some path
    | _ => fun _ => None
    end).

Definition client_remotes : list event -> list string :=
  observe (fun X (c : call X) =>
    match c in call T return T -> option string with
    | client_NewClient url => fun _ => Some url
    | _ => fun _ => None
    end).

(** ** The runs of [exec]

    What the environment answered in a run that got as far as starting the
    services. *)
Record transcript : Type := {
  t_level : AtomicLevel;
  t_config : zap_Config;
  t_logger : Logger;
  t_db : Pebble;
  t_em : Manager;
  t_client : RPCClient;
  t_fetcher_logger : Logger;
  t_fetcher : Fetcher;
  t_jsonrpc_logger : Logger;
  t_jsonrpc : JSONRPC;
  t_waiter : waiter;
  t_wait : option error;
  t_sync : option error;
  t_close : option error
}.

(** How a run of [exec] ends: at one of the three early returns, or after
    the wait. *)
Inductive outcome : Type :=
| ParseFailed (err : error)
| BuildFailed (lvl : AtomicLevel) (zc : zap_Config) (err : error)
| OpenFailed (lvl : AtomicLevel) (zc : zap_Config) (logger : Logger)
             (err : error)
| Started (t : transcript).

Definition logger_trace (c : startCfg) (lvl : AtomicLevel) (zc : zap_Config)
    (r : Logger + error) : list event :=
  [ Ev (zap_ParseAtomicLevel (logLevel c)) (inl lvl);
    Ev zap_NewDevelopmentConfig zc;
    Ev (Config_Build (set_Level zc lvl)) r ].

Definition wiring_trace (c : startCfg) (t : transcript) : list event :=
  [ Ev events_NewManager (t_em t);
    Ev (client_NewClient (remote c)) (t_client t);
    Ev (Logger_Named (t_logger t) "fetcher") (t_fetcher_logger t);
    Ev (fetch_New (t_db t) (t_client t) (t_em t)
          [fetch_WithLogger (t_fetcher_logger t);
           fetch_WithMaxSlots (maxSlots c);
           fetch_WithMaxChunkSize (maxChunkSize c)]) (t_fetcher t);
    Ev (Logger_Named (t_logger t) "json-rpc") (t_jsonrpc_logger t);
    Ev (serve_NewJSONRPC (t_em t)
          [serve_WithLogger (t_jsonrpc_logger t);
           serve_WithListenAddress (listenAddress c)]) (t_jsonrpc t);
    Ev (JSONRPC_RegisterTxEndpoints (t_jsonrpc t) (t_db t)) tt;
    Ev (JSONRPC_RegisterBlockEndpoints (t_jsonrpc t) (t_db t)) tt;
    Ev (JSONRPC_RegisterSubEndpoints (t_jsonrpc t) (t_db t)) tt ].

Definition serving_trace (ctx : Context) (t : transcript) : list event :=
  [ Ev (newWaiter ctx) (t_waiter t);
    Ev (waiter_add (t_waiter t) (FetchChainData (t_fetcher t))) tt;
    Ev (waiter_add (t_waiter t) (Serve (t_jsonrpc t))) tt;
    Ev (waiter_wait (t_waiter t)) (t_wait t);
    Ev (Logger_Sync (t_logger t)) (t_sync t) ].

Definition closing_trace (db : Pebble) (logger : Logger)
    (r : option error) : list event :=
  Ev (Pebble_Close db) r ::
  match r with
  | Some err =>
      [ Ev (Logger_Error logger "unable to gracefully close DB"
              [zap_Error err]) tt ]
  | None => []
  end.

Definition outcome_trace (ctx : Context) (c : startCfg) (oc : outcome)
  : list event :=
  match oc with
  | ParseFailed err => [ Ev (zap_ParseAtomicLevel (logLevel c)) (inr err) ]
  | BuildFailed lvl zc err => logger_trace c lvl zc (inr err)
  | OpenFailed lvl zc logger err =>
      logger_trace c lvl zc (inl logger)
        ++ [ Ev (storage_NewPebble (dbPath c)) (inr err) ]
  | Started t =>
      logger_trace c (t_level t) (t_config t) (inl (t_logger t))
        ++ [ Ev (storage_NewPebble (dbPath c)) (inl (t_db t)) ]
        ++ wiring_trace c t
        ++ serving_trace ctx t
        ++ closing_trace (t_db t) (t_logger t) (t_close t)
  end.

Definition outcome_result (oc : outcome) : option error :=
  match oc with
  | ParseFailed err => Some (Errorf_w "unable to parse log level, " err)
  | BuildFailed _ _ err => Some (Errorf_w "unable to create logger, " err)
  | OpenFailed _ _ _ err => Some (Errorf_w "unable to open storage DB, " err)
  | Started t => Join [t_wait t; t_sync t]
  end.

(** The trace and the result of a run of [exec] under an environment. *)
Definition exec_trace (o : oracle) (ctx : Context) (c : startCfg)
  : list event :=
  trace (snd (run o (exec ctx) (init c))).

Definition exec_result (o : oracle) (ctx : Context) (c : startCfg)
  : option error :=
  fst (run o (exec ctx) (init c)).

(** A program that never writes the configuration. *)
Inductive read_only (R : Type) : prog R -> Prop :=
| ro_Ret (r : R) : read_only (Ret r)
| ro_Call (X : Type) (c : call X) (k : X -> prog R) :
    (forall x, read_only (k x)) -> read_only (Call c k)
| ro_Load (k : startCfg -> prog R) :
    (forall c, read_only (k c)) -> read_only (Load k).

(** ** The flags of the start command *)

(** The configuration and the flag set once [registerFlags] has run. *)
Definition default_cfg (E : Externals) : startCfg :=
  {| listenAddress := serve_DefaultListenAddress E;
     remote := defaultRemote;
     dbPath := defaultDBPath;
     logLevel := zap_InfoLevel_String E;
     maxSlots := fetch_DefaultMaxSlots E;
     maxChunkSize := fetch_DefaultMaxChunkSize E |}.

Definition start_flags : flag.FlagSet :=
  {| flag.name := "start";
     flag.errorHandling := flag.ExitOnError;
     flag.formal :=
       [ {| flag.Name := "listen-address";
            flag.Usage := "the IP:PORT URL for the indexer JSON-RPC server";
            flag.Val := flag.stringValue flag.ref_listenAddress |};
         {| flag.Name := "remote";
            flag.Usage := "the JSON-RPC URL of the Gno chain";
            flag.Val := flag.stringValue flag.ref_remote |};
         {| flag.Name := "db-path";
            flag.Usage := "the absolute path for the indexer DB (embedded)";
            flag.Val := flag.stringValue flag.ref_dbPath |};
         {| flag.Name := "log-level";
            flag.Usage := "the log level for the CLI output";
            flag.Val := flag.stringValue flag.ref_logLevel |};
         {| flag.Name := "max-slots";
            flag.Usage := "the amount of slots (workers) the fetcher employs";
            flag.Val := flag.intValue flag.ref_maxSlots |};
         {| flag.Name := "max-chunk-size";
            flag.Usage :=
              "the range for fetching blockchain data by a single worker";
            flag.Val := flag.int64Value flag.ref_maxChunkSize |} ] |}.

(** ** A sample environment

    Everything succeeds, every new object gets the next free address, and
    zap knows its level names. *)
Definition zap_levels : list (string * Z) :=
  [ ("debug", -1); ("info", 0); ("warn", 1); ("error", 2);
    ("dpanic", 3); ("panic", 4); ("fatal", 5) ]%Z.

Definition sample_ParseAtomicLevel (text : string) : AtomicLevel + error :=
  match find (fun p => String.eqb (fst p) text) zap_levels with
  | Some (_, l) => inl (AtomicLevelAt l)
  | None =>
      inr (errorString ("unrecognized level: " ++ flag.quote text)%string)
  end.

Definition sample_answers (close : option error) : oracle :=
  fun X h c =>
    match c in call T return T with
    | zap_ParseAtomicLevel text => sample_ParseAtomicLevel text
    | zap_NewDevelopmentConfig =>
        {| Level := AtomicLevelAt (-1); Development := true |}
    | Config_Build _ => inl (LoggerPtr (length h))
    | Logger_Named _ _ => LoggerPtr (length h)
    | Logger_Error _ _ _ => tt
    | Logger_Sync _ => None
    | storage_NewPebble _ => inl (PebblePtr (length h))
    | Pebble_Close _ => close
    | events_NewManager => ManagerPtr (length h)
    | client_NewClient _ => RPCClientPtr (length h)
    | fetch_New _ _ _ _ => FetcherPtr (length h)
    | serve_NewJSONRPC _ _ => JSONRPCPtr (length h)
    | JSONRPC_RegisterTxEndpoints _ _ => tt
    | JSONRPC_RegisterBlockEndpoints _ _ => tt
    | JSONRPC_RegisterSubEndpoints _ _ => tt
    | newWaiter _ => waiterPtr (length h)
    | waiter_add _ _ => tt
    | waiter_wait _ => Some (errorString "context canceled")
    end.

Definition sample_oracle : oracle := sample_answers None.

Definition sample_ctx : Context := ContextPtr 0.

Definition sample_cfg : startCfg :=
  {| listenAddress := "0.0.0.0:8546"; remote := defaultRemote;
     dbPath := defaultDBPath; logLevel := "info";
     maxSlots := 100; maxChunkSize := 100 |}.

(** The same configuration with a log level zap does not know. *)
Definition verbose_cfg : startCfg :=
  flag.store_string flag.ref_logLevel "verbose" sample_cfg.

(** The same configuration after [-max-slots 0 -max-chunk-size -5]. *)
Definition no_slots_cfg : startCfg :=
  flag.store_int64 flag.ref_maxChunkSize (-5)
    (flag.store_int flag.ref_maxSlots 0 sample_cfg).

(** An environment changed in one place: [Pebble.Close] returns [r]. *)
Definition answering_close (o : oracle) (r : option error) : oracle :=
  fun X h c =>
    match c in call T return T -> T with
    | Pebble_Close _ => fun _ => r
    | _ => fun x => x
    end (o X h c).

(** The same environment with a DB whose close fails. *)
Definition failing_close_oracle : oracle :=
  sample_answers (Some (errorString "pebble: closed")).

(** ** Sample externals

    The constants are those of the upstream packages; the integer parser
    reads plain decimal literals with an optional minus sign and reports
    anything else, or a value out of range, as an error. *)
Fixpoint decimal (s : string) (acc : Z) : option Z :=
  match s with
  | EmptyString => Some acc
  | String a r =>
      let n := nat_of_ascii a in
      if (48 <=? n)%nat && (n <=? 57)%nat
      then decimal r (10 * acc + Z.of_nat (n - 48))%Z
      else None
  end.

Definition in_range (bitSize v : Z) : Z * option error :=
  if (v <? - 2 ^ (bitSize - 1))%Z
  then ((- 2 ^ (bitSize - 1))%Z, Some (errorString "value out of range"))
  else if (2 ^ (bitSize - 1) - 1 <? v)%Z
  then ((2 ^ (bitSize - 1) - 1)%Z, Some (errorString "value out of range"))
  else (v, None).

Definition sample_ParseInt (s : string) (base bitSize : Z)
  : Z * option error :=
  match s with
  | EmptyString => (0%Z, Some (errorString "invalid syntax"))
  | String a r =>
      if Ascii.eqb a "-"%char
      then match r with
           | EmptyString => (0%Z, Some (errorString "invalid syntax"))
           | _ => match decimal r 0 with
                  | Some v => in_range bitSize (- v)
                  | None => (0%Z, Some (errorString "invalid syntax"))
                  end
           end
      else match decimal s 0 with
           | Some v => in_range bitSize v
           | None => (0%Z, Some (errorString "invalid syntax"))
           end
  end.

Definition sample_Externals : Externals :=
  {| serve_DefaultListenAddress := "0.0.0.0:8546";
     zap_InfoLevel_String := "info";
     fetch_DefaultMaxSlots := 100;
     fetch_DefaultMaxChunkSize := 100;
     strconv_ParseInt := sample_ParseInt;
     strconv_IntSize := 64 |}.

(** ** More to read off a trace *)

(** What [zap.ParseAtomicLevel] returned when it succeeded, the configs
    [zap.NewDevelopmentConfig] returned, and the configs [Build] was
    called on, with the loggers and the errors it returned. *)
Definition parsed_level_values : list event -> list AtomicLevel :=
  observe (fun X (c : call X) =>
    match c in call T return T -> option AtomicLevel with
    | zap_ParseAtomicLevel _ =>
        fun r => match r with inl l => Some l | inr _ => None end
    | _ => fun _ => None
    end).

Definition development_configs : list event -> list zap_Config :=
  observe (fun X (c : call X) =>
    match c in call T return T -> option zap_Config with
    | zap_NewDevelopmentConfig => fun zc => Some zc
    | _ => fun _ => None
    end).

Definition build_configs : list event -> list zap_Config :=
  observe (fun X (c : call X) =>
    match c in call T return T -> option zap_Config with
    | Config_Build zc => fun _ => Some zc
    | _ => fun _ => None
    end).

Definition built_loggers : list event -> list Logger :=
  observe (fun X (c : call X) =>
    match c in call T return T -> option Logger with
    | Config_Build _ =>
        fun r => match r with inl l => Some l | inr _ => None end
    | _ => fun _ => None
    end).

Definition build_errors : list event -> list error :=
  observe (fun X (c : call X) =>
    match c in call T return T -> option error with
    | Config_Build _ =>
        fun r => match r with inl _ => None | inr e => Some e end
    | _ => fun _ => None
    end).

(** The errors of [storage.NewPebble]. *)
Definition open_errors : list event -> list error :=
  observe (fun X (c : call X) =>
    match c in call T return T -> option error with
    | storage_NewPebble _ =>
        fun r => match r with inl _ => None | inr e => Some e end
    | _ => fun _ => None
    end).

(** The child loggers made: of which logger, under which name. *)
Definition named_loggers : list event -> list (Logger * string * Logger) :=
  observe (fun X (c : call X) =>
    match c in call T return T -> option (Logger * string * Logger) with
    | Logger_Named l n => fun child => Some (l, n, child)
    | _ => fun _ => None
    end).

(** The syncs of a logger with their results, and the errors logged. *)
Definition syncs : list event -> list (Logger * option error) :=
  observe (fun X (c : call X) =>
    match c in call T return T -> option (Logger * option error) with
    | Logger_Sync l => fun r => Some (l, r)
    | _ => fun _ => None
    end).

Definition logged_errors
  : list event -> list (Logger * string * list zap_Field) :=
  observe (fun X (c : call X) =>
    match c in call T return T -> option (Logger * string * list zap_Field)
    with
    | Logger_Error l msg fields => fun _ => Some (l, msg, fields)
    | _ => fun _ => None
    end).

(** The errors [Pebble.Close] returned. *)
Definition close_errors : list event -> list error :=
  observe (fun X (c : call X) =>
    match c in call T return T -> option error with
    | Pebble_Close _ => fun r => r
    | _ => fun _ => None
    end).

(** The contexts waiters were created with. *)
Definition waiter_contexts : list event -> list Context :=
  observe (fun X (c : call X) =>
    match c in call T return T -> option Context with
    | newWaiter ctx => fun _ => Some ctx
    | _ => fun _ => None
    end).

(** ** The command line *)

(** The value a command line supplies for a flag: that of the last
    occurrence of the flag, if it occurs. *)
Fixpoint last_supplied (n : string) (args : list (string * string))
  : option string :=
  match args with
  | [] => None
  | (m, v) :: rest =>
      match last_supplied n rest with
      | Some w => Some w
      | None => if String.eqb m n then Some v else None
      end
  end.

(** The flag that sets a string field, and the field behind a pointer. *)
Definition stringRef_flag (p : flag.stringRef) : string :=
  match p with
  | flag.ref_listenAddress => "listen-address"
  | flag.ref_remote => "remote"
  | flag.ref_dbPath => "db-path"
  | flag.ref_logLevel => "log-level"
  end.

Definition load_string (p : flag.stringRef) (c : startCfg) : string :=
  match p with
  | flag.ref_listenAddress => listenAddress c
  | flag.ref_remote => remote c
  | flag.ref_dbPath => dbPath c
  | flag.ref_logLevel => logLevel c
  end.

(** The names of the flags of the start command. *)
Definition start_names : list string :=
  map flag.Name (flag.formal start_flags).

(** The state in which the command line is parsed, and the run of the
    parse. *)
Definition registered (E : Externals) : state :=
  {| cfg := default_cfg E; trace := [] |}.

Definition parse_run (E : Externals) (o : oracle)
    (args : list (string * string)) : option error * state :=
  run o (flag.Parse (strconv_ParseInt E) (strconv_IntSize E) start_flags args)
      (registered E).

(** The configuration a command line asks for: for every flag the last
    value supplied, read as an integer for the two limits, and the default
    when the flag is not supplied. *)
Definition requested_cfg (E : Externals) (args : list (string * string))
  : startCfg :=
  {| listenAddress :=
       match last_supplied "listen-address" args with
       | Some v => v
       | None => serve_DefaultListenAddress E
       end;
     remote :=
       match last_supplied "remote" args with
       | Some v => v
       | None => defaultRemote
       end;
     dbPath :=
       match last_supplied "db-path" args with
       | Some v => v
       | None => defaultDBPath
       end;
     logLevel :=
       match last_supplied "log-level" args with
       | Some v => v
       | None => zap_InfoLevel_String E
       end;
     maxSlots :=
       match last_supplied "max-slots" args with
       | Some v => fst (strconv_ParseInt E v 0 (strconv_IntSize E))
       | None => fetch_DefaultMaxSlots E
       end;
     maxChunkSize :=
       match last_supplied "max-chunk-size" args with
       | Some v => fst (strconv_ParseInt E v 0 64)
       | None => fetch_DefaultMaxChunkSize E
       end |}.



(** ** More sample environments *)

(** The sample environment with a logger that cannot be built, and with a
    storage DB that cannot be opened. *)
Definition failing_build_oracle : oracle :=
  fun X h c =>
    match c in call T return T -> T with
    | Config_Build _ => fun _ => inr (errorString "couldn't open sink")
    | _ => fun x => x
    end ((sample_oracle : oracle) X h c).

Definition failing_open_oracle : oracle :=
  fun X h c =>
    match c in call T return T -> T with
    | storage_NewPebble _ => fun _ => inr (errorString "lock held")
    | _ => fun x => x
    end ((sample_oracle : oracle) X h c).

(** The sample environment with services that stop without an error. *)
Definition quiet_oracle : oracle :=
  fun X h c =>
    match c in call T return T -> T with
    | waiter_wait _ => fun _ => None
    | _ => fun x => x
    end ((sample_oracle : oracle) X h c).

(** * Proofs *)

Unset Implicit Arguments.

(** ** Stepping a run *)

Lemma run_Call (R X : Type) (o : oracle) (c : call X) (k : X -> prog R)
    (s : state) :
  run o (Call c k) s
  = run o (k (o X (trace s) c)) (record_event (Ev c (o X (trace s) c)) s).
Proof. reflexivity. Qed.

Lemma run_Load (R : Type) (o : oracle) (k : startCfg -> prog R) (s : state) :
  run o (Load k) s = run o (k (cfg s)) s.
Proof. reflexivity. Qed.

Lemma run_bind (A B : Type) (o : oracle) (m : prog A) (f : A -> prog B)
    (s : state) :
  run o (bind m f) s
  = run o (f (fst (run o m s))) (snd (run o m s)).
Proof.
  revert s. induction m as [a | X c k IH | k IH | g k IH]; intro s; simpl.
  - reflexivity.
  - apply IH.
  - apply IH.
  - apply IH.
Qed.

(** One external call of a run: its answer becomes a fresh variable. *)
Ltac call_step o :=
  rewrite run_Call;
  match goal with
  | |- context [o ?X ?h ?c] =>
      let x := fresh "x" in
      set (x := o X h c); clearbody x; cbv beta
  end.

Ltac load_step := rewrite run_Load; cbn [cfg record_event init]; cbv beta.

(** Every run of [exec] ends in one of the four outcomes, with exactly the
    trace and the result of that outcome, and with the configuration as it
    was. *)
Lemma exec_outcome (o : oracle) (ctx : Context) (c : startCfg) :
  exists oc : outcome,
    run o (exec ctx) (init c)
    = (outcome_result oc, {| cfg := c; trace := outcome_trace ctx c oc |}).
Proof.
  unfold exec.
  cbn [bind do field with_defer setupJSONRPC close_db].
  load_step. call_step o.
  destruct x as [lvl | err].
  2:{ exists (ParseFailed err). reflexivity. }
  call_step o. rename x into zc. call_step o.
  destruct x as [logger | err].
  2:{ exists (BuildFailed lvl zc err). reflexivity. }
  load_step. call_step o.
  destruct x as [db | err].
  2:{ exists (OpenFailed lvl zc logger err). reflexivity. }
  call_step o. rename x into em.
  load_step. call_step o. rename x into cl.
  call_step o. rename x into lf.
  load_step. load_step. call_step o. rename x into f.
  load_step. call_step o. rename x into lj.
  call_step o. rename x into j.
  call_step o. destruct x.
  call_step o. destruct x.
  call_step o. destruct x.
  call_step o. rename x into w.
  call_step o. destruct x.
  call_step o. destruct x.
  call_step o. rename x into werr.
  call_step o. rename x into serr.
  call_step o. rename x into cerr.
  exists (Started {| t_level := lvl; t_config := zc; t_logger := logger;
                     t_db := db; t_em := em; t_client := cl;
                     t_fetcher_logger := lf; t_fetcher := f;
                     t_jsonrpc_logger := lj; t_jsonrpc := j; t_waiter := w;
                     t_wait := werr; t_sync := serr; t_close := cerr |}).
  destruct cerr as [e | ]; cbn [bind do].
  - call_step o. destruct x. reflexivity.
  - reflexivity.
Qed.

Lemma read_only_keeps_cfg (R : Type) (p : prog R) :
  read_only p -> forall (o : oracle) (s : state), cfg (snd (run o p s)) = cfg s.
Proof.
  induction 1 as [r | X c k _ IH | k _ IH]; intros o s; simpl.
  - reflexivity.
  - rewrite IH. reflexivity.
  - apply IH.
Qed.

Lemma exec_read_only (ctx : Context) : read_only (exec ctx).
Proof.
  unfold exec.
  cbn [bind do field with_defer setupJSONRPC close_db].
  repeat (first [ apply ro_Ret
                | apply ro_Load; intro
                | apply ro_Call; intro
                | match goal with
                  | |- read_only (match ?r with _ => _ end) => destruct r
                  | |- read_only (bind (match ?r with _ => _ end) _) =>
                      destruct r; cbn [bind do]
                  end ]).
Qed.

(** ** Properties of the runs of [exec] *)

Lemma exec_trace_outcome (o : oracle) (ctx : Context) (c : startCfg) :
  exists oc : outcome,
    exec_trace o ctx c = outcome_trace ctx c oc
    /\ exec_result o ctx c = outcome_result oc.
Proof.
  destruct (exec_outcome o ctx c) as [oc H].
  exists oc. unfold exec_trace, exec_result. rewrite H. split; reflexivity.
Qed.

(** Case analysis on the outcome of the run in the goal; the deferred
    close is split into its two branches. *)
Ltac by_outcome o ctx c :=
  let oc := fresh "oc" in
  let Ht := fresh "Ht" in
  let Hr := fresh "Hr" in
  destruct (exec_trace_outcome o ctx c) as (oc & Ht & Hr);
  rewrite ?Ht, ?Hr; clear Ht Hr;
  destruct oc as [err | lvl zc err | lvl zc logger err | t];
  [ | | | destruct t as [lvl zc logger db em cl lf f lj j w werr serr cerr];
          destruct cerr as [cerr | ] ];
  cbn.

Lemma signature_cases (i : fetch.interface) (n : string)
    (sig : list fetch.gotype * list fetch.gotype) :
  fetch.signature i n = Some sig ->
  In (n, sig) (map (fun m => (fetch.mname m, (fetch.params m, fetch.results m))) i).
Proof.
  unfold fetch.signature.
  induction i as [ | m i IH]; simpl.
  - discriminate.
  - destruct (String.eqb (fetch.mname m) n) eqn:E.
    + intro H. injection H as <-. apply String.eqb_eq in E. subst n.
      left. reflexivity.
    + intro H. right. apply IH. exact H.
Qed.

(** C1: the Storage contract of the fetcher is the declared interface with
    exactly the methods GetLatestHeight() (int64, error),
    SaveBlock(block *types.Block) error and SaveTx(tx *types.TxResult)
    error; and in
    every run of exec the storage handed to fetch.New is the DB that
    storage.NewPebble opened at the configured path: fetch.New is called
    once for each DB opened (at most one), with that DB. *)
Theorem Storage_contract_injected :
  (forall n sig,
      fetch.signature fetch.Storage n = Some sig <->
      In (n, sig)
         [ ("GetLatestHeight", ([], [fetch.int64; fetch.error_]));
           ("SaveBlock", ([fetch.pointer "types" "Block"], [fetch.error_]));
           ("SaveTx", ([fetch.pointer "types" "TxResult"], [fetch.error_])) ])
  /\ length fetch.Storage = 3%nat
  /\ forall (o : oracle) (ctx : Context) (c : startCfg),
       fetcher_storages (exec_trace o ctx c)
       = map snd (opened_dbs (exec_trace o ctx c))
       /\ (opened_dbs (exec_trace o ctx c) = []
           \/ exists db, opened_dbs (exec_trace o ctx c) = [(dbPath c, db)]).
Proof.
  split; [ | split ].
  - intros n sig. split.
    + intro H. apply signature_cases in H. exact H.
    + simpl. intros [H | [H | [H | []]]]; injection H as <- <-; reflexivity.
  - reflexivity.
  - intros o ctx c. by_outcome o ctx c; split; auto; right; eexists; reflexivity.
Qed.

(** C2: the Client contract of the fetcher is the declared interface with
    exactly the methods GetLatestBlockNumber() (int64, error),
    GetBlock(int64) returning a *core_types.ResultBlock and an error, and
    GetBlockResults(int64) returning a *core_types.ResultBlockResults and
    an error; and in
    every run of exec the client handed to fetch.New is the one that
    client.NewClient built from the configured remote: fetch.New is called
    once for each client built (at most one), with that client. *)
Theorem Client_contract_injected :
  (forall n sig,
      fetch.signature fetch.Client n = Some sig <->
      In (n, sig)
         [ ("GetLatestBlockNumber", ([], [fetch.int64; fetch.error_]));
           ("GetBlock",
            ([fetch.int64],
             [fetch.pointer "core_types" "ResultBlock"; fetch.error_]));
           ("GetBlockResults",
            ([fetch.int64],
             [fetch.pointer "core_types" "ResultBlockResults";
              fetch.error_])) ])
  /\ length fetch.Client = 3%nat
  /\ forall (o : oracle) (ctx : Context) (c : startCfg),
       fetcher_clients (exec_trace o ctx c)
       = map snd (built_clients (exec_trace o ctx c))
       /\ (built_clients (exec_trace o ctx c) = []
           \/ exists cl, built_clients (exec_trace o ctx c) = [(remote c, cl)]).
Proof.
  split; [ | split ].
  - intros n sig. split.
    + intro H. apply signature_cases in H. exact H.
    + simpl. intros [H | [H | [H | []]]]; injection H as <- <-; reflexivity.
  - reflexivity.
  - intros o ctx c. by_outcome o ctx c; split; auto; right; eexists; reflexivity.
Qed.

(** C3, as stated, fails: a run of exec whose log level does not parse
    returns before any event manager is constructed. *)
Lemma no_manager_when_level_unknown :
  ~ (forall (o : oracle) (ctx : Context) (c : startCfg),
        exists em,
          constructed_managers (exec_trace o ctx c) = [em]
          /\ fetcher_managers (exec_trace o ctx c) = [em]
          /\ jsonrpc_managers (exec_trace o ctx c) = [em]).
Proof.
  intro H.
  destruct (H sample_oracle sample_ctx verbose_cfg) as (em & Hem & _).
  vm_compute in Hem. discriminate Hem.
Qed.

(** C3, amended: in every run of exec that opens the storage DB, exactly
    one event manager is constructed and that same instance is handed to
    fetch.New and to serve.NewJSONRPC, each called once; a run that
    returns at one of the setup errors opens no DB, constructs no manager
    and hands none to anything. *)
Theorem one_manager_shared (o : oracle) (ctx : Context) (c : startCfg) :
  (opened_dbs (exec_trace o ctx c) = []
   /\ constructed_managers (exec_trace o ctx c) = []
   /\ fetcher_managers (exec_trace o ctx c) = []
   /\ jsonrpc_managers (exec_trace o ctx c) = [])
  \/ (exists db em,
         opened_dbs (exec_trace o ctx c) = [(dbPath c, db)]
         /\ constructed_managers (exec_trace o ctx c) = [em]
         /\ fetcher_managers (exec_trace o ctx c) = [em]
         /\ jsonrpc_managers (exec_trace o ctx c) = [em]).
Proof.
  by_outcome o ctx c; auto; right; exists db, em; auto.
Qed.

(** What [exec] hands to [fetch.New] as limits is what the configuration
    holds, whatever it holds. *)
Lemma exec_fetcher_limits (o : oracle) (ctx : Context) (c : startCfg) :
  Forall (fun opts => slots_of opts = [maxSlots c]
                      /\ chunk_sizes_of opts = [maxChunkSize c])
         (fetcher_options (exec_trace o ctx c)).
Proof.
  by_outcome o ctx c; repeat constructor.
Qed.

Lemma exec_keeps_cfg (o : oracle) (ctx : Context) (s : state) :
  cfg (snd (run o (exec ctx) s)) = cfg s.
Proof. apply read_only_keeps_cfg. apply exec_read_only. Qed.

(** C4, as stated, fails: with max-slots 0 and max-chunk-size -5 in the
    configuration, exec reaches fetch.New and hands it exactly these. *)
Lemma fetcher_built_with_no_slots :
  ~ (forall (o : oracle) (ctx : Context) (c : startCfg),
        Forall (fun opts => Forall (fun n => 0 < n)%Z (slots_of opts)
                            /\ Forall (fun n => 0 < n)%Z (chunk_sizes_of opts))
               (fetcher_options (exec_trace o ctx c))).
Proof.
  intro H.
  specialize (H sample_oracle sample_ctx no_slots_cfg).
  assert (E : fetcher_options (exec_trace sample_oracle sample_ctx no_slots_cfg)
              = [[fetch_WithLogger (LoggerPtr 6); fetch_WithMaxSlots 0;
                  fetch_WithMaxChunkSize (-5)]])
    by (vm_compute; reflexivity).
  rewrite E in H.
  inversion H as [ | opts rest [Hslots _] _ ]. simpl in Hslots.
  inversion Hslots as [ | n l Hn _ ]. lia.
Qed.

(** C4, amended: exec does not validate the worker count or the max chunk
    size; whenever it reaches fetch.New, the worker count and the max
    chunk size among the options are exactly the configured max-slots and
    max-chunk-size, so they are positive there exactly when the configured
    values are. *)
Theorem fetcher_gets_configured_limits (o : oracle) (ctx : Context)
    (c : startCfg) :
  Forall (fun opts =>
            slots_of opts = [maxSlots c]
            /\ chunk_sizes_of opts = [maxChunkSize c]
            /\ (Forall (fun n => 0 < n)%Z (slots_of opts)
                <-> (0 < maxSlots c)%Z)
            /\ (Forall (fun n => 0 < n)%Z (chunk_sizes_of opts)
                <-> (0 < maxChunkSize c)%Z))
         (fetcher_options (exec_trace o ctx c)).
Proof.
  eapply Forall_impl; [ | apply exec_fetcher_limits ].
  intros opts [Hs Hc]. rewrite Hs, Hc.
  repeat split; try (intro H; inversion H; assumption);
    intro H; constructor; auto.
Qed.

(** Registering the flags never panics: it leaves the defaults in the
    configuration and the six flags in the set, and calls nothing. *)
Lemma registerFlags_run (E : Externals) (o : oracle) (s : state) :
  run o (registerFlags E (flag.NewFlagSet "start" flag.ExitOnError))
      (write_cfg (fun _ => zero_startCfg) s)
  = (Some start_flags, {| cfg := default_cfg E; trace := trace s |}).
Proof. reflexivity. Qed.

Lemma newStartCmd_run (E : Externals) (o : oracle) (s : state) :
  exists cmd,
    run o (newStartCmd E) s
    = (Some cmd, {| cfg := default_cfg E; trace := trace s |})
    /\ FlagSet cmd = start_flags
    /\ Exec cmd = fun ctx _ => exec ctx.
Proof. eexists. split; [ reflexivity | split; reflexivity ]. Qed.

Lemma store_string_limits (p : flag.stringRef) (v : string) (c : startCfg) :
  maxSlots (flag.store_string p v c) = maxSlots c
  /\ maxChunkSize (flag.store_string p v c) = maxChunkSize c.
Proof. destruct p; split; reflexivity. Qed.

(** Every flag of the start command other than max-slots and
    max-chunk-size sets a string field. *)
Lemma lookup_start_flags (n : string) (f : flag.Flag) :
  flag.lookup start_flags n = Some f ->
  n = "max-slots" \/ n = "max-chunk-size"
  \/ exists p, flag.Val f = flag.stringValue p.
Proof.
  unfold flag.lookup, start_flags. cbn [flag.formal find flag.Name].
  repeat match goal with
         | |- context [String.eqb ?a n] =>
             let E := fresh "E" in
             destruct (String.eqb a n) eqn:E;
             [ apply String.eqb_eq in E; subst n | ]
         end;
    intro H; try discriminate H; injection H as <-; auto;
    right; right; eexists; reflexivity.
Qed.

(** Parsing a command line that supplies neither max-slots nor
    max-chunk-size leaves both fields alone, and calls nothing. *)
Lemma Parse_keeps_limits (E : Externals) (o : oracle)
    (args : list (string * string)) :
  ~ In "max-slots" (map fst args) ->
  ~ In "max-chunk-size" (map fst args) ->
  forall s : state,
    let s' := snd (run o (flag.Parse (strconv_ParseInt E) (strconv_IntSize E)
                            start_flags args) s) in
    maxSlots (cfg s') = maxSlots (cfg s)
    /\ maxChunkSize (cfg s') = maxChunkSize (cfg s)
    /\ trace s' = trace s.
Proof.
  induction args as [ | [n v] rest IH]; intros Hslots Hchunk s.
  - simpl. auto.
  - simpl in Hslots, Hchunk.
    assert (Hs : ~ In "max-slots" (map fst rest)) by tauto.
    assert (Hc : ~ In "max-chunk-size" (map fst rest)) by tauto.
    specialize (IH Hs Hc).
    cbn [flag.Parse].
    destruct (flag.lookup start_flags n) as [f | ] eqn:L.
    + apply lookup_start_flags in L.
      destruct L as [L | [L | [p L]]]; try tauto.
      rewrite L. cbn [flag.Set_ bind assign run].
      destruct (IH (write_cfg (flag.store_string p v) s)) as (H1 & H2 & H3).
      destruct (store_string_limits p v (cfg s)) as (H4 & H5).
      cbn [write_cfg cfg trace] in H1, H2, H3.
      cbv zeta. rewrite H1, H2, H3, H4, H5. auto.
    + simpl. auto.
Qed.

(** C5: when the command line supplies neither max-slots nor
    max-chunk-size, the start command ends with fetch.DefaultMaxSlots and
    fetch.DefaultMaxChunkSize in the configuration, and whenever its exec
    reaches fetch.New, the worker count and the max chunk size among the
    options are these two defaults. *)
Theorem defaults_reach_the_fetcher (E : Externals) (o : oracle)
    (ctx : Context) (args : list (string * string)) (c0 : startCfg) :
  ~ In "max-slots" (map fst args) ->
  ~ In "max-chunk-size" (map fst args) ->
  let s := snd (run o (start E ctx args) (init c0)) in
  maxSlots (cfg s) = fetch_DefaultMaxSlots E
  /\ maxChunkSize (cfg s) = fetch_DefaultMaxChunkSize E
  /\ Forall (fun opts =>
               slots_of opts = [fetch_DefaultMaxSlots E]
               /\ chunk_sizes_of opts = [fetch_DefaultMaxChunkSize E])
            (fetcher_options (trace s)).
Proof.
  intros Hslots Hchunk. unfold start.
  rewrite run_bind.
  destruct (newStartCmd_run E o (init c0)) as (cmd & Hrun & Hfs & Hexec).
  rewrite Hrun. cbn [fst snd]. rewrite run_bind. cbn [run snd].
  unfold ParseAndRun. rewrite run_bind. rewrite Hfs, Hexec.
  destruct (Parse_keeps_limits E o args Hslots Hchunk
              {| cfg := default_cfg E; trace := trace (init c0) |})
    as (Hs & Hc & Ht).
  destruct (run o (flag.Parse (strconv_ParseInt E) (strconv_IntSize E)
                     start_flags args)
              {| cfg := default_cfg E; trace := trace (init c0) |})
    as [r [c2 t2]].
  cbn [fst snd cfg trace default_cfg init] in Hs, Hc, Ht. subst t2.
  cbn [fst snd]. destruct r as [err | ].
  - cbn [run snd cfg trace]. rewrite Hs, Hc. repeat split. constructor.
  - change {| cfg := c2; trace := [] |} with (init c2).
    rewrite exec_keeps_cfg. cbn [init cfg]. rewrite Hs, Hc. repeat split.
    pose proof (exec_fetcher_limits o ctx c2) as Hl.
    rewrite Hs, Hc in Hl. exact Hl.
Qed.

Lemma defaults_reach_the_fetcher_sample :
  let s := snd (run sample_oracle
                  (start sample_Externals sample_ctx [("log-level", "debug")])
                  (init zero_startCfg)) in
  maxSlots (cfg s) = 100%Z
  /\ maxChunkSize (cfg s) = 100%Z
  /\ Forall (fun opts => slots_of opts = [100%Z]
                         /\ chunk_sizes_of opts = [100%Z])
            (fetcher_options (trace s)).
Proof.
  apply (defaults_reach_the_fetcher sample_Externals sample_oracle sample_ctx
           [("log-level", "debug")] zero_startCfg);
    simpl; intros [H | []]; discriminate H.
Defined.

(** The command line [-max-slots 0 -max-chunk-size -5] parses, and the
    fetcher is then built with no slots and a negative chunk size. *)
Example start_with_no_slots :
  fetcher_options
    (trace (snd (run sample_oracle
                   (start sample_Externals sample_ctx
                      [("max-slots", "0"); ("max-chunk-size", "-5")])
                   (init zero_startCfg))))
  = [[fetch_WithLogger (LoggerPtr 6); fetch_WithMaxSlots 0;
      fetch_WithMaxChunkSize (-5)]].
Proof. vm_compute. reflexivity. Qed.

(** C6: exec never writes the configuration: its program has no write,
    the struct is after the run what it was before, from whatever state
    exec starts, and every value exec hands out (the level text, the DB
    path, the remote, the limits of the fetcher, the listen address of the
    JSON-RPC service) is the field as it was at the start, handed out at
    most once. *)
Theorem exec_leaves_cfg_alone (o : oracle) (ctx : Context) :
  read_only (exec ctx)
  /\ (forall s : state, cfg (snd (run o (exec ctx) s)) = cfg s)
  /\ forall c : startCfg,
       parsed_levels (exec_trace o ctx c) = [logLevel c]
       /\ (storage_paths (exec_trace o ctx c) = []
           \/ storage_paths (exec_trace o ctx c) = [dbPath c])
       /\ (client_remotes (exec_trace o ctx c) = []
           \/ client_remotes (exec_trace o ctx c) = [remote c])
       /\ (fetcher_options (exec_trace o ctx c) = []
           \/ exists l,
                fetcher_options (exec_trace o ctx c)
                = [[fetch_WithLogger l; fetch_WithMaxSlots (maxSlots c);
                    fetch_WithMaxChunkSize (maxChunkSize c)]])
       /\ (jsonrpc_options (exec_trace o ctx c) = []
           \/ exists l,
                jsonrpc_options (exec_trace o ctx c)
                = [[serve_WithLogger l;
                    serve_WithListenAddress (listenAddress c)]]).
Proof.
  split; [ apply exec_read_only | split; [ apply exec_keeps_cfg | ] ].
  intro c. by_outcome o ctx c; repeat split; auto; right; eexists; reflexivity.
Qed.

(** C7: exec does not return before the waiter over the registered
    services has returned.  In every run of exec in which a waiter exists
    or a service was registered, the fetcher's FetchChainData and the
    JSON-RPC server's Serve were both added to the one waiter, the wait on
    that waiter came after both additions and returned, and exec produced
    its return value only then, as the join of the wait's result and the
    logger's sync error; no service is added after the wait.  The only
    other runs are those that return at a setup error: in them no waiter
    was created and no service was constructed or registered. *)
Theorem exec_waits_for_services (o : oracle) (ctx : Context) (c : startCfg) :
  (created_waiters (exec_trace o ctx c) = []
   /\ added_services (exec_trace o ctx c) = []
   /\ constructed_fetchers (exec_trace o ctx c) = []
   /\ constructed_jsonrpcs (exec_trace o ctx c) = [])
  \/ exists pre post w f j logger werr serr,
       exec_trace o ctx c
       = pre ++ [ Ev (waiter_add w (FetchChainData f)) tt;
                  Ev (waiter_add w (Serve j)) tt;
                  Ev (waiter_wait w) werr;
                  Ev (Logger_Sync logger) serr ] ++ post
       /\ constructed_fetchers (exec_trace o ctx c) = [f]
       /\ constructed_jsonrpcs (exec_trace o ctx c) = [j]
       /\ created_waiters (exec_trace o ctx c) = [w]
       /\ added_services (exec_trace o ctx c)
          = [(w, FetchChainData f); (w, Serve j)]
       /\ waits (exec_trace o ctx c) = [(w, werr)]
       /\ added_services post = []
       /\ exec_result o ctx c = Join [werr; serr].
Proof.
  destruct (exec_trace_outcome o ctx c) as (oc & Ht & Hr).
  rewrite Ht, Hr. clear Ht Hr.
  destruct oc as [err | lvl zc err | lvl zc logger err | t];
    [ left; cbn; auto .. | right ].
  exists (logger_trace c (t_level t) (t_config t) (inl (t_logger t))
            ++ [ Ev (storage_NewPebble (dbPath c)) (inl (t_db t)) ]
            ++ wiring_trace c t
            ++ [ Ev (newWaiter ctx) (t_waiter t) ]),
         (closing_trace (t_db t) (t_logger t) (t_close t)),
         (t_waiter t), (t_fetcher t), (t_jsonrpc t), (t_logger t),
         (t_wait t), (t_sync t).
  destruct t as [lvl zc logger db em cl lf f lj j w werr serr cerr].
  destruct cerr as [cerr | ]; cbn; repeat split; reflexivity.
Qed.

(** C8: if zap.ParseAtomicLevel rejects the configured log level, exec
    returns a non-nil error that wraps the parse error, with the message
    prefix of the source, and the parse is the only call of the run: no DB
    was opened, no event manager, fetcher or JSON-RPC service was
    constructed, no waiter was created and no service was added to one. *)
Theorem unparsable_level_stops_exec (o : oracle) (ctx : Context)
    (c : startCfg) (err : error) :
  o _ [] (zap_ParseAtomicLevel (logLevel c)) = inr err ->
  (exists e,
      exec_result o ctx c = Some e
      /\ Unwrap e = Some err
      /\ Error e = ("unable to parse log level, " ++ Error err)%string)
  /\ exec_trace o ctx c = [ Ev (zap_ParseAtomicLevel (logLevel c)) (inr err) ]
  /\ storage_paths (exec_trace o ctx c) = []
  /\ constructed_managers (exec_trace o ctx c) = []
  /\ constructed_fetchers (exec_trace o ctx c) = []
  /\ constructed_jsonrpcs (exec_trace o ctx c) = []
  /\ created_waiters (exec_trace o ctx c) = []
  /\ added_services (exec_trace o ctx c) = []
  /\ waits (exec_trace o ctx c) = [].
Proof.
  intro H.
  assert (Hrun : run o (exec ctx) (init c)
                 = (Some (Errorf_w "unable to parse log level, " err),
                    {| cfg := c;
                       trace := [ Ev (zap_ParseAtomicLevel (logLevel c))
                                     (inr err) ] |})).
  { unfold exec. cbn [bind do field]. load_step.
    rewrite run_Call. cbn [trace init]. rewrite H. reflexivity. }
  unfold exec_result, exec_trace. rewrite Hrun. cbn [fst snd trace].
  split.
  - eexists. split; [ reflexivity | split; reflexivity ].
  - repeat split; reflexivity.
Qed.

Lemma unparsable_level_stops_exec_sample :
  (exists e,
      exec_result sample_oracle sample_ctx verbose_cfg = Some e
      /\ Unwrap e
         = Some (errorString ("unrecognized level: " ++ flag.quote "verbose"))
      /\ Error e
         = ("unable to parse log level, unrecognized level: "
              ++ flag.quote "verbose")%string)
  /\ exec_trace sample_oracle sample_ctx verbose_cfg
     = [ Ev (zap_ParseAtomicLevel "verbose")
            (inr (errorString
                    ("unrecognized level: " ++ flag.quote "verbose"))) ]
  /\ storage_paths (exec_trace sample_oracle sample_ctx verbose_cfg) = []
  /\ constructed_managers (exec_trace sample_oracle sample_ctx verbose_cfg) = []
  /\ constructed_fetchers (exec_trace sample_oracle sample_ctx verbose_cfg) = []
  /\ constructed_jsonrpcs (exec_trace sample_oracle sample_ctx verbose_cfg) = []
  /\ created_waiters (exec_trace sample_oracle sample_ctx verbose_cfg) = []
  /\ added_services (exec_trace sample_oracle sample_ctx verbose_cfg) = []
  /\ waits (exec_trace sample_oracle sample_ctx verbose_cfg) = [].
Proof.
  apply (unparsable_level_stops_exec sample_oracle sample_ctx verbose_cfg
           (errorString ("unrecognized level: " ++ flag.quote "verbose"))).
  reflexivity.
Defined.

(** Two runs in step, one under [o] and one under [o'], which is [o]
    with another answer for the close: up to the close both get the same
    answers. *)
Ltac call_step2 o o' :=
  rewrite ?run_Load; cbn [cfg record_event init]; cbv beta;
  rewrite (run_Call _ _ o'), (run_Call _ _ o);
  match goal with
  | |- context [o' ?X ?h ?c] => change (o' X h c) with (o X h c)
  end;
  match goal with
  | |- context [o ?X ?h ?c] =>
      let x := fresh "x" in
      set (x := o X h c); clearbody x; cbv beta
  end.

(** What the close of the DB returns does not reach the result of
    [exec]. *)
Lemma close_answer_irrelevant (o : oracle) (ctx : Context) (c : startCfg)
    (r : option error) :
  exec_result (answering_close o r) ctx c = exec_result o ctx c.
Proof.
  unfold exec_result, exec.
  cbn [bind do field with_defer setupJSONRPC close_db].
  set (o' := answering_close o r).
  call_step2 o o'. destruct x as [lvl | err]; [ | reflexivity ].
  call_step2 o o'. call_step2 o o'.
  destruct x0 as [logger | err]; [ | reflexivity ].
  call_step2 o o'. destruct x0 as [db | err]; [ | reflexivity ].
  do 14 call_step2 o o'.
  rewrite (run_Call _ _ o'), (run_Call _ _ o).
  match goal with
  | |- context [o' ?X ?h ?c] => change (o' X h c) with r
  end.
  match goal with
  | |- context [o ?X ?h ?c] => destruct (o X h c)
  end; destruct r; reflexivity.
Qed.

(** C9: whenever exec has opened the storage DB, the trace of the run
    ends with the wait, the logger's sync and then the deferred close of
    that DB, which is its only close; when the close fails the failure is
    logged and nothing else happens; the return value of exec is the join
    of the wait's result and the sync error, both obtained before the
    close; and it is the same whatever the close returns. *)
Theorem opened_db_is_closed (o : oracle) (ctx : Context) (c : startCfg)
    (db : Pebble) :
  In (dbPath c, db) (opened_dbs (exec_trace o ctx c)) ->
  exists pre w logger werr serr cerr,
    exec_trace o ctx c
    = pre ++ [ Ev (waiter_wait w) werr; Ev (Logger_Sync logger) serr ]
          ++ Ev (Pebble_Close db) cerr
             :: match cerr with
                | Some err =>
                    [ Ev (Logger_Error logger "unable to gracefully close DB"
                            [zap_Error err]) tt ]
                | None => []
                end
    /\ closed_dbs pre = []
    /\ closed_dbs (exec_trace o ctx c) = [db]
    /\ exec_result o ctx c = Join [werr; serr]
    /\ forall r, exec_result (answering_close o r) ctx c = Join [werr; serr].
Proof.
  pose proof (close_answer_irrelevant o ctx c) as Hany. revert Hany.
  destruct (exec_trace_outcome o ctx c) as (oc & Ht & Hr).
  rewrite Ht, Hr. clear Ht Hr.
  destruct oc as [err | lvl zc err | lvl zc logger err | t];
    [ cbn; intros _ [] .. | ].
  intros Hany H.
  assert (Hdb : db = t_db t).
  { destruct t; cbn in H. destruct t_close0; cbn in H;
      destruct H as [H | []]; injection H as <-; reflexivity. }
  subst db.
  exists (logger_trace c (t_level t) (t_config t) (inl (t_logger t))
            ++ [ Ev (storage_NewPebble (dbPath c)) (inl (t_db t)) ]
            ++ wiring_trace c t
            ++ [ Ev (newWaiter ctx) (t_waiter t);
                 Ev (waiter_add (t_waiter t) (FetchChainData (t_fetcher t))) tt;
                 Ev (waiter_add (t_waiter t) (Serve (t_jsonrpc t))) tt ]),
         (t_waiter t), (t_logger t), (t_wait t), (t_sync t), (t_close t).
  destruct t as [lvl zc logger db em cl lf f lj j w werr serr cerr].
  cbn in Hany.
  destruct cerr as [cerr | ]; cbn; repeat split; try reflexivity; exact Hany.
Qed.

Lemma opened_db_is_closed_sample :
  exists pre w logger werr serr cerr,
    exec_trace failing_close_oracle sample_ctx sample_cfg
    = pre ++ [ Ev (waiter_wait w) werr; Ev (Logger_Sync logger) serr ]
          ++ Ev (Pebble_Close (PebblePtr 3)) cerr
             :: match cerr with
                | Some err =>
                    [ Ev (Logger_Error logger "unable to gracefully close DB"
                            [zap_Error err]) tt ]
                | None => []
                end
    /\ closed_dbs pre = []
    /\ closed_dbs (exec_trace failing_close_oracle sample_ctx sample_cfg)
       = [PebblePtr 3]
    /\ exec_result failing_close_oracle sample_ctx sample_cfg
       = Join [werr; serr]
    /\ forall r,
         exec_result (answering_close failing_close_oracle r)
           sample_ctx sample_cfg
         = Join [werr; serr].
Proof.
  apply (opened_db_is_closed failing_close_oracle sample_ctx sample_cfg
           (PebblePtr 3)).
  vm_compute. left. reflexivity.
Defined.

(** C10: setupJSONRPC constructs one JSONRPC instance, with the manager
    it was given, registers on that instance the transaction, the block
    and the subscription endpoints, in this order and each backed by the
    DB it was given, and returns that instance; it does this in every run,
    from any state, and makes no other call besides naming the logger. *)
Theorem setupJSONRPC_registers_all (o : oracle) (addr : string) (db : Pebble)
    (em : Manager) (logger : Logger) (s : state) :
  exists l j evs,
    run o (setupJSONRPC addr db em logger) s
    = (j, {| cfg := cfg s; trace := trace s ++ evs |})
    /\ evs = [ Ev (Logger_Named logger "json-rpc") l;
               Ev (serve_NewJSONRPC em
                     [serve_WithLogger l; serve_WithListenAddress addr]) j;
               Ev (JSONRPC_RegisterTxEndpoints j db) tt;
               Ev (JSONRPC_RegisterBlockEndpoints j db) tt;
               Ev (JSONRPC_RegisterSubEndpoints j db) tt ]
    /\ constructed_jsonrpcs evs = [j]
    /\ jsonrpc_managers evs = [em]
    /\ registered_endpoints evs
       = [ (TxEndpoints, j, db); (BlockEndpoints, j, db);
           (SubEndpoints, j, db) ].
Proof.
  unfold setupJSONRPC. cbn [bind do].
  call_step o. rename x into l.
  call_step o. rename x into j.
  call_step o. destruct x.
  call_step o. destruct x.
  call_step o. destruct x.
  exists l, j. eexists. split; [ | split; [ reflexivity | ] ].
  - cbn [run]. unfold record_event. cbn [cfg trace].
    rewrite <- !app_assoc. reflexivity.
  - repeat split; reflexivity.
Qed.

(** ** Further properties of [exec] *)

(** X1: exec returns nil exactly when the services were started and both
    the wait over them and the logger's sync returned nil; a run that ends
    at a setup error never returns nil. *)
Theorem exec_nil_iff_clean_stop (o : oracle) (ctx : Context) (c : startCfg) :
  exec_result o ctx c = None
  <-> exists w l,
        waits (exec_trace o ctx c) = [(w, None)]
        /\ syncs (exec_trace o ctx c) = [(l, None)].
Proof.
  by_outcome o ctx c;
    try (split; [ discriminate | intros (w' & l & H & _); discriminate H ]).
  - destruct werr, serr; cbn; split; intro H; try discriminate H;
      try (destruct H as (w' & l & H1 & H2); discriminate);
      first [ reflexivity | exists w, logger; split; reflexivity ].
  - destruct werr, serr; cbn; split; intro H; try discriminate H;
      try (destruct H as (w' & l & H1 & H2); discriminate);
      first [ reflexivity | exists w, logger; split; reflexivity ].
Qed.

(** X2: if building the logger fails, exec returns the error wrapped with
    the prefix of the source for that step, and the run ends there: no
    storage DB is opened, no client, manager, fetcher or JSON-RPC service
    is made and no waiter is created. *)
Theorem logger_failure_stops_exec (o : oracle) (ctx : Context) (c : startCfg)
    (cause : error) :
  In cause (build_errors (exec_trace o ctx c)) ->
  exec_result o ctx c = Some (Errorf_w "unable to create logger, " cause)
  /\ Unwrap (Errorf_w "unable to create logger, " cause) = Some cause
  /\ build_errors (exec_trace o ctx c) = [cause]
  /\ storage_paths (exec_trace o ctx c) = []
  /\ client_remotes (exec_trace o ctx c) = []
  /\ constructed_managers (exec_trace o ctx c) = []
  /\ constructed_fetchers (exec_trace o ctx c) = []
  /\ constructed_jsonrpcs (exec_trace o ctx c) = []
  /\ created_waiters (exec_trace o ctx c) = [].
Proof.
  by_outcome o ctx c; intro H; try (destruct H; fail).
  destruct H as [<- | []]. repeat split; reflexivity.
Qed.

Lemma logger_failure_stops_exec_sample :
  exec_result failing_build_oracle sample_ctx sample_cfg
  = Some (Errorf_w "unable to create logger, "
            (errorString "couldn't open sink"))
  /\ Unwrap (Errorf_w "unable to create logger, "
               (errorString "couldn't open sink"))
     = Some (errorString "couldn't open sink")
  /\ build_errors (exec_trace failing_build_oracle sample_ctx sample_cfg)
     = [errorString "couldn't open sink"]
  /\ storage_paths (exec_trace failing_build_oracle sample_ctx sample_cfg) = []
  /\ client_remotes (exec_trace failing_build_oracle sample_ctx sample_cfg) = []
  /\ constructed_managers
       (exec_trace failing_build_oracle sample_ctx sample_cfg) = []
  /\ constructed_fetchers
       (exec_trace failing_build_oracle sample_ctx sample_cfg) = []
  /\ constructed_jsonrpcs
       (exec_trace failing_build_oracle sample_ctx sample_cfg) = []
  /\ created_waiters
       (exec_trace failing_build_oracle sample_ctx sample_cfg) = [].
Proof.
  apply (logger_failure_stops_exec failing_build_oracle sample_ctx sample_cfg
           (errorString "couldn't open sink")).
  vm_compute. left. reflexivity.
Defined.

(** X3: if the storage DB cannot be opened, exec returns the error
    wrapped with the prefix of the source for that step; nothing was
    deferred, so no DB is closed, and the logger that was built is neither
    synced nor used to log; no client, manager, fetcher or JSON-RPC service
    is made and no waiter is created. *)
Theorem storage_failure_stops_exec (o : oracle) (ctx : Context) (c : startCfg)
    (cause : error) :
  In cause (open_errors (exec_trace o ctx c)) ->
  exec_result o ctx c = Some (Errorf_w "unable to open storage DB, " cause)
  /\ Unwrap (Errorf_w "unable to open storage DB, " cause) = Some cause
  /\ storage_paths (exec_trace o ctx c) = [dbPath c]
  /\ (exists l, built_loggers (exec_trace o ctx c) = [l])
  /\ closed_dbs (exec_trace o ctx c) = []
  /\ syncs (exec_trace o ctx c) = []
  /\ logged_errors (exec_trace o ctx c) = []
  /\ named_loggers (exec_trace o ctx c) = []
  /\ client_remotes (exec_trace o ctx c) = []
  /\ constructed_managers (exec_trace o ctx c) = []
  /\ constructed_fetchers (exec_trace o ctx c) = []
  /\ constructed_jsonrpcs (exec_trace o ctx c) = []
  /\ created_waiters (exec_trace o ctx c) = [].
Proof.
  by_outcome o ctx c; intro H; try (destruct H; fail).
  destruct H as [<- | []].
  repeat split; try reflexivity. exists logger. reflexivity.
Qed.

Lemma storage_failure_stops_exec_sample :
  exec_result failing_open_oracle sample_ctx sample_cfg
  = Some (Errorf_w "unable to open storage DB, " (errorString "lock held"))
  /\ Unwrap (Errorf_w "unable to open storage DB, " (errorString "lock held"))
     = Some (errorString "lock held")
  /\ storage_paths (exec_trace failing_open_oracle sample_ctx sample_cfg)
     = [dbPath sample_cfg]
  /\ (exists l,
         built_loggers (exec_trace failing_open_oracle sample_ctx sample_cfg)
         = [l])
  /\ closed_dbs (exec_trace failing_open_oracle sample_ctx sample_cfg) = []
  /\ syncs (exec_trace failing_open_oracle sample_ctx sample_cfg) = []
  /\ logged_errors (exec_trace failing_open_oracle sample_ctx sample_cfg) = []
  /\ named_loggers (exec_trace failing_open_oracle sample_ctx sample_cfg) = []
  /\ client_remotes (exec_trace failing_open_oracle sample_ctx sample_cfg) = []
  /\ constructed_managers
       (exec_trace failing_open_oracle sample_ctx sample_cfg) = []
  /\ constructed_fetchers
       (exec_trace failing_open_oracle sample_ctx sample_cfg) = []
  /\ constructed_jsonrpcs
       (exec_trace failing_open_oracle sample_ctx sample_cfg) = []
  /\ created_waiters
       (exec_trace failing_open_oracle sample_ctx sample_cfg) = [].
Proof.
  apply (storage_failure_stops_exec failing_open_oracle sample_ctx sample_cfg
           (errorString "lock held")).
  vm_compute. left. reflexivity.
Defined.

(** X4: the log level of the configuration takes effect: whenever exec
    builds a logger, it builds it, once, from the development config that
    zap returned with only the level replaced, by the level that
    zap.ParseAtomicLevel returned for the configured text. *)
Theorem logger_built_at_parsed_level (o : oracle) (ctx : Context)
    (c : startCfg) :
  parsed_levels (exec_trace o ctx c) = [logLevel c]
  /\ ((parsed_level_values (exec_trace o ctx c) = []
       /\ build_configs (exec_trace o ctx c) = [])
      \/ exists lvl zc,
           parsed_level_values (exec_trace o ctx c) = [lvl]
           /\ development_configs (exec_trace o ctx c) = [zc]
           /\ build_configs (exec_trace o ctx c)
              = [ {| Level := lvl; Development := Development zc |} ]).
Proof.
  by_outcome o ctx c; split; auto; right; exists lvl, zc; auto.
Qed.

(** X5: the loggers of a run all come from the one logger exec built: the
    fetcher gets its child named "fetcher", the JSON-RPC service its child
    named "json-rpc", no other child is made, and the sync at the end is
    the sync of the built logger itself.  A run that ends at a setup error
    makes no child logger and syncs nothing. *)
Theorem loggers_come_from_the_built_one (o : oracle) (ctx : Context)
    (c : startCfg) :
  (named_loggers (exec_trace o ctx c) = []
   /\ fetcher_options (exec_trace o ctx c) = []
   /\ jsonrpc_options (exec_trace o ctx c) = []
   /\ syncs (exec_trace o ctx c) = [])
  \/ exists logger lf lj serr,
       built_loggers (exec_trace o ctx c) = [logger]
       /\ named_loggers (exec_trace o ctx c)
          = [ (logger, "fetcher", lf); (logger, "json-rpc", lj) ]
       /\ fetcher_options (exec_trace o ctx c)
          = [ [ fetch_WithLogger lf; fetch_WithMaxSlots (maxSlots c);
                fetch_WithMaxChunkSize (maxChunkSize c) ] ]
       /\ jsonrpc_options (exec_trace o ctx c)
          = [ [ serve_WithLogger lj;
                serve_WithListenAddress (listenAddress c) ] ]
       /\ syncs (exec_trace o ctx c) = [(logger, serr)].
Proof.
  by_outcome o ctx c; auto; right; exists logger, lf, lj, serr;
    repeat split; reflexivity.
Qed.

(** X6: the instance exec serves is the one it set up: in every run the
    three endpoint groups are registered on one JSON-RPC instance, backed
    by the DB the fetcher stores to, before any service is handed to the
    waiter, and the Serve handed to the waiter is the Serve of that
    instance, as FetchChainData is that of the fetcher built on that DB.
    A run that ends at a setup error registers and hands over nothing. *)
Theorem served_instance_is_set_up (o : oracle) (ctx : Context)
    (c : startCfg) :
  (registered_endpoints (exec_trace o ctx c) = []
   /\ added_services (exec_trace o ctx c) = [])
  \/ exists pre post db f j w,
       exec_trace o ctx c = pre ++ post
       /\ registered_endpoints pre
          = [ (TxEndpoints, j, db); (BlockEndpoints, j, db);
              (SubEndpoints, j, db) ]
       /\ added_services pre = []
       /\ registered_endpoints post = []
       /\ added_services post = [(w, FetchChainData f); (w, Serve j)]
       /\ opened_dbs (exec_trace o ctx c) = [(dbPath c, db)]
       /\ fetcher_storages (exec_trace o ctx c) = [db]
       /\ constructed_fetchers (exec_trace o ctx c) = [f]
       /\ constructed_jsonrpcs (exec_trace o ctx c) = [j].
Proof.
  destruct (exec_trace_outcome o ctx c) as (oc & Ht & _).
  rewrite Ht. clear Ht.
  destruct oc as [err | lvl zc err | lvl zc logger err | t];
    [ left; cbn; auto .. | right ].
  exists (logger_trace c (t_level t) (t_config t) (inl (t_logger t))
            ++ [ Ev (storage_NewPebble (dbPath c)) (inl (t_db t)) ]
            ++ wiring_trace c t),
         (serving_trace ctx t
            ++ closing_trace (t_db t) (t_logger t) (t_close t)),
         (t_db t), (t_fetcher t), (t_jsonrpc t), (t_waiter t).
  destruct t as [lvl zc logger db em cl lf f lj j w werr serr cerr].
  destruct cerr as [cerr | ]; cbn; repeat split; reflexivity.
Qed.

(** X7: exec logs an error exactly when the close of the DB failed: the
    errors logged in a run are the errors Close returned, each logged once
    on the logger exec built, with the message of the source. *)
Theorem close_failures_are_logged (o : oracle) (ctx : Context) (c : startCfg) :
  map (fun e => snd e) (logged_errors (exec_trace o ctx c))
  = map (fun err => [zap_Error err]) (close_errors (exec_trace o ctx c))
  /\ Forall (fun e => In (fst (fst e)) (built_loggers (exec_trace o ctx c))
                      /\ snd (fst e) = "unable to gracefully close DB")
            (logged_errors (exec_trace o ctx c)).
Proof.
  by_outcome o ctx c; split; auto; repeat constructor; auto.
Qed.

(** ** Further properties of the command line *)

(** The flag a name stands for in the start command. *)
Lemma lookup_start_flags_cases (n : string) :
  match flag.lookup start_flags n with
  | Some f =>
      (exists p, n = stringRef_flag p /\ flag.Val f = flag.stringValue p)
      \/ (n = "max-slots" /\ flag.Val f = flag.intValue flag.ref_maxSlots)
      \/ (n = "max-chunk-size"
          /\ flag.Val f = flag.int64Value flag.ref_maxChunkSize)
  | None => ~ In n start_names
  end.
Proof.
  unfold flag.lookup, start_flags, start_names.
  cbn [flag.formal find flag.Name map].
  repeat match goal with
         | |- context [String.eqb ?a n] =>
             let E := fresh "E" in
             destruct (String.eqb a n) eqn:E;
             [ apply String.eqb_eq in E; subst n
             | apply String.eqb_neq in E ]
         end.
  - left. exists flag.ref_listenAddress. split; reflexivity.
  - left. exists flag.ref_remote. split; reflexivity.
  - left. exists flag.ref_dbPath. split; reflexivity.
  - left. exists flag.ref_logLevel. split; reflexivity.
  - right. left. split; reflexivity.
  - right. right. split; reflexivity.
  - simpl. intuition congruence.
Qed.

Lemma load_store_string (p q : flag.stringRef) (v : string) (c : startCfg) :
  load_string p (flag.store_string q v c)
  = if String.eqb (stringRef_flag q) (stringRef_flag p) then v
    else load_string p c.
Proof. destruct p, q; reflexivity. Qed.

Lemma last_supplied_cons (n m v : string) (rest : list (string * string)) :
  last_supplied n ((m, v) :: rest)
  = match last_supplied n rest with
    | Some w => Some w
    | None => if String.eqb m n then Some v else None
    end.
Proof. reflexivity. Qed.

(** The parse of a command line calls nothing. *)
Lemma Parse_calls_nothing (E : Externals) (o : oracle)
    (args : list (string * string)) (s : state) :
  trace (snd (run o (flag.Parse (strconv_ParseInt E) (strconv_IntSize E)
                       start_flags args) s))
  = trace s.
Proof.
  revert s. induction args as [ | [n v] rest IH]; intro s.
  - reflexivity.
  - cbn [flag.Parse].
    destruct (flag.lookup start_flags n) as [f | ]; [ | reflexivity ].
    destruct (flag.Val f) as [p | p | p]; cbn [flag.Set_].
    + cbn [bind assign run]. rewrite IH. reflexivity.
    + destruct (strconv_ParseInt E v 0 (strconv_IntSize E)) as [z [e | ]];
        cbn [bind assign run]; [ reflexivity | rewrite IH; reflexivity ].
    + destruct (strconv_ParseInt E v 0 64) as [z [e | ]];
        cbn [bind assign run]; [ reflexivity | rewrite IH; reflexivity ].
Qed.

(** When the parse succeeds, every field holds the last value supplied for
    its flag, or what it held before. *)
Lemma Parse_last_wins (E : Externals) (o : oracle)
    (args : list (string * string)) :
  forall s : state,
    fst (run o (flag.Parse (strconv_ParseInt E) (strconv_IntSize E)
                  start_flags args) s) = None ->
    let c' := cfg (snd (run o (flag.Parse (strconv_ParseInt E)
                                 (strconv_IntSize E) start_flags args) s)) in
    (forall p,
        load_string p c'
        = match last_supplied (stringRef_flag p) args with
          | Some v => v
          | None => load_string p (cfg s)
          end)
    /\ maxSlots c'
       = match last_supplied "max-slots" args with
         | Some v => fst (strconv_ParseInt E v 0 (strconv_IntSize E))
         | None => maxSlots (cfg s)
         end
    /\ maxChunkSize c'
       = match last_supplied "max-chunk-size" args with
         | Some v => fst (strconv_ParseInt E v 0 64)
         | None => maxChunkSize (cfg s)
         end.
Proof.
  induction args as [ | [n v] rest IH]; intros s.
  - simpl. auto.
  - cbn [flag.Parse]. rewrite !last_supplied_cons.
    pose proof (lookup_start_flags_cases n) as L.
    destruct (flag.lookup start_flags n) as [f | ];
      [ | intro H; discriminate H ].
    destruct L as [(q & -> & L) | [(-> & L) | (-> & L)]]; rewrite L;
      cbn [flag.Set_].
    + cbn [bind assign run]. intro H.
      destruct (IH _ H) as (Hs & Hn & Hc). cbv zeta.
      cbn [write_cfg cfg] in Hs, Hn, Hc.
      split; [ | split ].
      * intro p. rewrite last_supplied_cons, Hs, load_store_string.
        destruct (last_supplied (stringRef_flag p) rest); [ reflexivity | ].
        destruct (String.eqb (stringRef_flag q) (stringRef_flag p));
          reflexivity.
      * rewrite Hn.
        destruct (last_supplied "max-slots" rest); [ reflexivity | ].
        destruct q; reflexivity.
      * rewrite Hc.
        destruct (last_supplied "max-chunk-size" rest); [ reflexivity | ].
        destruct q; reflexivity.
    + destruct (strconv_ParseInt E v 0 (strconv_IntSize E)) as [z [e | ]] eqn:P;
        cbn [bind assign run]; [ intro H; discriminate H | ].
      intro H. destruct (IH _ H) as (Hs & Hn & Hc). cbv zeta.
      cbn [write_cfg cfg] in Hs, Hn, Hc.
      split; [ | split ].
      * intro p. rewrite last_supplied_cons, Hs.
        destruct (last_supplied (stringRef_flag p) rest); [ reflexivity | ].
        destruct p; reflexivity.
      * rewrite Hn.
        destruct (last_supplied "max-slots" rest); [ reflexivity | ].
        cbn. rewrite P. reflexivity.
      * rewrite Hc.
        destruct (last_supplied "max-chunk-size" rest); reflexivity.
    + destruct (strconv_ParseInt E v 0 64) as [z [e | ]] eqn:P;
        cbn [bind assign run]; [ intro H; discriminate H | ].
      intro H. destruct (IH _ H) as (Hs & Hn & Hc). cbv zeta.
      cbn [write_cfg cfg] in Hs, Hn, Hc.
      split; [ | split ].
      * intro p. rewrite last_supplied_cons, Hs.
        destruct (last_supplied (stringRef_flag p) rest); [ reflexivity | ].
        destruct p; reflexivity.
      * rewrite Hn.
        destruct (last_supplied "max-slots" rest); reflexivity.
      * rewrite Hc.
        destruct (last_supplied "max-chunk-size" rest); [ reflexivity | ].
        cbn. rewrite P. reflexivity.
Qed.


(** The start command on a command line: the parse in the state the
    registration leaves, then, when it succeeded, [exec]. *)
Lemma start_run (E : Externals) (o : oracle) (ctx : Context)
    (args : list (string * string)) (c0 : startCfg) :
  run o (start E ctx args) (init c0)
  = match fst (parse_run E o args) with
    | Some err => (Some (Some err), snd (parse_run E o args))
    | None =>
        (Some (fst (run o (exec ctx) (snd (parse_run E o args)))),
         snd (run o (exec ctx) (snd (parse_run E o args))))
    end.
Proof.
  unfold start. rewrite run_bind.
  destruct (newStartCmd_run E o (init c0)) as (cmd & Hrun & Hfs & Hexec).
  rewrite Hrun. cbn [fst snd]. rewrite run_bind. cbn [run].
  unfold ParseAndRun. rewrite run_bind. rewrite Hfs, Hexec.
  change {| cfg := default_cfg E; trace := trace (init c0) |}
    with (registered E).
  fold (parse_run E o args).
  destruct (parse_run E o args) as [[err | ] s']; reflexivity.
Qed.

(** When the parse succeeded, [exec] starts from the requested
    configuration with nothing called yet. *)
Lemma parse_run_requested (E : Externals) (o : oracle)
    (args : list (string * string)) :
  fst (parse_run E o args) = None ->
  snd (parse_run E o args) = init (requested_cfg E args).
Proof.
  intro H. unfold parse_run in *.
  destruct (Parse_last_wins E o args (registered E) H) as (Hs & Hn & Hc).
  pose proof (Parse_calls_nothing E o args (registered E)) as Ht.
  pose proof (Hs flag.ref_listenAddress) as H1.
  pose proof (Hs flag.ref_remote) as H2.
  pose proof (Hs flag.ref_dbPath) as H3.
  pose proof (Hs flag.ref_logLevel) as H4.
  destruct (snd (run o (flag.Parse (strconv_ParseInt E) (strconv_IntSize E)
                          start_flags args) (registered E)))
    as [[a b d l m k] t].
  cbn in Ht, H1, H2, H3, H4, Hn, Hc. subst.
  unfold init, requested_cfg. reflexivity.
Qed.

(** X8: a command line that parses leaves in the configuration, for each
    of the six flags, the last value supplied for it, read by
    strconv.ParseInt for max-slots and max-chunk-size, and the default that
    registerFlags gave the flag when the command line does not supply it;
    nothing is called while the command line is parsed. *)
Theorem parsed_cfg_is_requested (E : Externals) (o : oracle)
    (args : list (string * string)) :
  fst (parse_run E o args) = None ->
  cfg (snd (parse_run E o args)) = requested_cfg E args
  /\ trace (snd (parse_run E o args)) = [].
Proof.
  intro H. rewrite (parse_run_requested E o args H). split; reflexivity.
Qed.

Lemma parsed_cfg_is_requested_sample :
  cfg (snd (parse_run sample_Externals sample_oracle
              [ ("remote", "http://node-a:26657"); ("max-slots", "8");
                ("remote", "http://node-b:26657") ]))
  = {| listenAddress := "0.0.0.0:8546"; remote := "http://node-b:26657";
       dbPath := "indexer-db"; logLevel := "info";
       maxSlots := 8; maxChunkSize := 100 |}
  /\ trace (snd (parse_run sample_Externals sample_oracle
                   [ ("remote", "http://node-a:26657"); ("max-slots", "8");
                     ("remote", "http://node-b:26657") ])) = [].
Proof.
  apply (parsed_cfg_is_requested sample_Externals sample_oracle
           [ ("remote", "http://node-a:26657"); ("max-slots", "8");
             ("remote", "http://node-b:26657") ]).
  reflexivity.
Defined.

(** X9: what the start command builds, it builds from the command line:
    in every run, the level text given to zap, the path of the storage DB,
    the remote of the client, the two limits of the fetcher and the listen
    address of the JSON-RPC service are those of the requested
    configuration (last value supplied, else the default), and the waiter
    is created with the context the command was run with. *)
Theorem start_builds_what_was_requested (E : Externals) (o : oracle)
    (ctx : Context) (args : list (string * string)) (c0 : startCfg) :
  let tr := trace (snd (run o (start E ctx args) (init c0))) in
  let c := requested_cfg E args in
  Forall (eq (logLevel c)) (parsed_levels tr)
  /\ Forall (eq (dbPath c)) (storage_paths tr)
  /\ Forall (eq (remote c)) (client_remotes tr)
  /\ Forall (fun opts => slots_of opts = [maxSlots c]
                         /\ chunk_sizes_of opts = [maxChunkSize c])
            (fetcher_options tr)
  /\ Forall (fun opts =>
               exists l,
                 opts = [serve_WithLogger l;
                         serve_WithListenAddress (listenAddress c)])
            (jsonrpc_options tr)
  /\ Forall (eq ctx) (waiter_contexts tr).
Proof.
  rewrite start_run.
  destruct (fst (parse_run E o args)) as [err | ] eqn:P.
  - cbn [snd]. unfold parse_run.
    rewrite Parse_calls_nothing. cbn. repeat split; constructor.
  - cbn [snd]. rewrite (parse_run_requested E o args P).
    fold (exec_trace o ctx (requested_cfg E args)).
    by_outcome o ctx (requested_cfg E args); repeat split;
      repeat constructor; eexists; reflexivity.
Qed.


(** ** Registering the flags on any flag set *)






